(** * Decision ledger of the Explore service: cursor codec, list queries,
      upsert and mutual-like detection.

    Shallow embedding of
      - internal/utils/pagination/cursor.go   (Cursor, Encode, Decode)
      - internal/db/models.go                 (Decision)
      - internal/repository/decision_repo.go  (CreateOrUpdateDecision,
          GetLikers, GetNewLikers, CountLikers, HasLiked, getString)
      - internal/service/explore/service.go   (ListLikedYou,
          ListNewLikedYou, PutDecision)
    together with the library calls they are built from (strconv,
    encoding/base64, encoding/json, the GORM query builder).

    Conventions.  Go strings and byte slices are [list byte].  [uint64],
    [int64] and [int] values are [Z] with their ranges and wrap-around
    written out.  Timestamps are milliseconds since the Unix epoch: the
    [decisions] columns are [datetime(3)] and the tests truncate the clock
    to the millisecond, so [UnixMilli] loses nothing on a stored value.
    Store and cache calls are modelled on their success path (no I/O
    failure, no cancellation). *)

From Stdlib Require Import ZArith List Bool Lia.
From Stdlib Require Import Strings.Byte Strings.String.
From Stdlib Require Import Sorting.Sorted Sorting.Permutation.
Import ListNotations.

#[local] Set Warnings "-register-all".

Local Open Scope Z_scope.
Local Open Scope list_scope.

(** Go strings and [[]byte]. *)
Definition bytes := list byte.

Definition byte_to_Z (b : byte) : Z := Z.of_N (Byte.to_N b).

Definition byte_of_Z (z : Z) : byte :=
  match Byte.of_N (Z.to_N z) with
  | Some b => b
  | None => x00
  end.

Definition bytes_eqb (s t : bytes) : bool :=
  if list_eq_dec Byte.byte_eq_dec s t then true else false.

(** Literal byte strings. *)
Definition lit (s : string) : bytes := list_byte_of_string s.

(* ================================================================= *)
(** ** Machine integers *)

Module Int.
Definition max_uint64 : Z := 18446744073709551615.
Definition min_int64 : Z := -9223372036854775808.
Definition max_int64 : Z := 9223372036854775807.

Definition is_uint64 (z : Z) : Prop := 0 <= z <= max_uint64.
Definition is_int64 (z : Z) : Prop := min_int64 <= z <= max_int64.

(** Two's complement wrap-around of a 64-bit signed result (Go [int] on
    the 64-bit targets the service is built for). *)
Definition wrap64 (z : Z) : Z :=
  (z + 9223372036854775808) mod 18446744073709551616 - 9223372036854775808.

Definition add (x y : Z) : Z := wrap64 (x + y).
Definition sub (x y : Z) : Z := wrap64 (x - y).
End Int.

(* ================================================================= *)
(** ** strconv: decimal formatting and parsing *)

Module Strconv.

Definition digit_val (b : byte) : option Z :=
  let v := byte_to_Z b in
  if (48 <=? v) && (v <=? 57) then Some (v - 48) else None.

Definition digit_byte (d : Z) : byte := byte_of_Z (48 + d).

Definition is_digit (b : byte) : bool :=
  match digit_val b with Some _ => true | None => false end.

(** Most significant digit first; [acc] is the value read so far. *)
Fixpoint parse_digits (s : bytes) (acc : Z) : option Z :=
  match s with
  | [] => Some acc
  | b :: t =>
      match digit_val b with
      | Some d => parse_digits t (10 * acc + d)
      | None => None
      end
  end.

(** [strconv.ParseUint(s, 10, 64)]: a non-empty run of decimal digits,
    no sign, value below 2^64. *)
Definition ParseUint (s : bytes) : option Z :=
  match s with
  | [] => None
  | _ =>
      match parse_digits s 0 with
      | Some v => if v <=? Int.max_uint64 then Some v else None
      | None => None
      end
  end.

(** [strconv.ParseInt(s, 10, 64)]: optional sign, then digits, value in
    the [int64] range. *)
Definition ParseInt (s : bytes) : option Z :=
  let signed (neg : bool) (ds : bytes) :=
    match ds with
    | [] => None
    | _ =>
        match parse_digits ds 0 with
        | Some v =>
            let r := if neg then - v else v in
            if (Int.min_int64 <=? r) && (r <=? Int.max_int64)
            then Some r else None
        | None => None
        end
    end in
  match s with
  | [] => None
  | "-"%byte :: ds => signed true ds
  | "+"%byte :: ds => signed false ds
  | _ => signed false s
  end.

(** Digits of a non-negative number, prepended to [acc].  Twenty steps
    cover every [uint64]. *)
Fixpoint format_digits (fuel : nat) (n : Z) (acc : bytes) : bytes :=
  match fuel with
  | O => acc
  | S f =>
      let acc' := digit_byte (n mod 10) :: acc in
      if n / 10 =? 0 then acc' else format_digits f (n / 10) acc'
  end.

(** [strconv.FormatUint(n, 10)]. *)
Definition FormatUint (n : Z) : bytes := format_digits 20 n [].

(** [strconv.FormatInt(n, 10)]. *)
Definition FormatInt (n : Z) : bytes :=
  if n <? 0 then "-"%byte :: format_digits 20 (- n) []
  else format_digits 20 n [].

End Strconv.

(* ================================================================= *)
(** ** encoding/base64: [base64.URLEncoding] (URL-safe alphabet, padded) *)

Module Base64.

Definition alphabet : bytes :=
  lit "ABCDEFGHIJKLMNOPQRSTUVWXYZabcdefghijklmnopqrstuvwxyz0123456789-_".

Definition pad : byte := "="%byte.

Definition enc (i : Z) : byte := nth (Z.to_nat i) alphabet "A"%byte.

Fixpoint index_from (b : byte) (l : bytes) (i : Z) : option Z :=
  match l with
  | [] => None
  | c :: t => if Byte.eqb b c then Some i else index_from b t (i + 1)
  end.

Definition dec (b : byte) : option Z := index_from b alphabet 0.

(** Three source bytes make one 24-bit group, cut into four sextets; a
    final group of one or two bytes is padded with ['=']. *)
Fixpoint EncodeToString (src : bytes) : bytes :=
  match src with
  | [] => []
  | [b0] =>
      let v := byte_to_Z b0 * 65536 in
      [enc (v / 262144); enc ((v / 4096) mod 64); pad; pad]
  | [b0; b1] =>
      let v := byte_to_Z b0 * 65536 + byte_to_Z b1 * 256 in
      [enc (v / 262144); enc ((v / 4096) mod 64); enc ((v / 64) mod 64); pad]
  | b0 :: b1 :: b2 :: rest =>
      let v := byte_to_Z b0 * 65536 + byte_to_Z b1 * 256 + byte_to_Z b2 in
      enc (v / 262144) :: enc ((v / 4096) mod 64)
        :: enc ((v / 64) mod 64) :: enc (v mod 64)
        :: EncodeToString rest
  end.

Definition is_newline (b : byte) : bool :=
  Byte.eqb b x0a || Byte.eqb b x0d.

(** The decoder ignores carriage returns and line feeds wherever they
    occur. *)
Definition strip_newlines (s : bytes) : bytes :=
  filter (fun b => negb (is_newline b)) s.

Definition is_nil (s : bytes) : bool :=
  match s with [] => true | _ => false end.

(** Groups of four characters; padding is accepted in the last group
    only, and the unused low bits of a padded group are not checked. *)
Fixpoint decode_quanta (s : bytes) : option bytes :=
  match s with
  | [] => Some []
  | c0 :: c1 :: c2 :: c3 :: rest =>
      match dec c0, dec c1 with
      | Some i0, Some i1 =>
          match dec c2, dec c3 with
          | Some i2, Some i3 =>
              let v := i0 * 262144 + i1 * 4096 + i2 * 64 + i3 in
              match decode_quanta rest with
              | Some out =>
                  Some (byte_of_Z (v / 65536)
                          :: byte_of_Z ((v / 256) mod 256)
                          :: byte_of_Z (v mod 256) :: out)
              | None => None
              end
          | Some i2, None =>
              if Byte.eqb c3 pad && is_nil rest then
                let v := i0 * 262144 + i1 * 4096 + i2 * 64 in
                Some [byte_of_Z (v / 65536); byte_of_Z ((v / 256) mod 256)]
              else None
          | None, _ =>
              if Byte.eqb c2 pad && Byte.eqb c3 pad && is_nil rest then
                let v := i0 * 262144 + i1 * 4096 in
                Some [byte_of_Z (v / 65536)]
              else None
          end
      | _, _ => None
      end
  | _ => None
  end.

Definition DecodeString (s : bytes) : option bytes :=
  decode_quanta (strip_newlines s).

End Base64.

(* ================================================================= *)
(** ** encoding/json, as far as [Cursor] needs it *)

Module Json.

(** A parsed document.  Number literals stay as written: whether one fits
    the target field is decided when it is stored. *)
Inductive json : Type :=
| JNull
| JBool (b : bool)
| JNum (literal : bytes)
| JStr (s : bytes)
| JArr (elems : list json)
| JObj (members : list (bytes * json)).

Definition quote : byte := x22.
Definition backslash : byte := x5c.

Definition is_ws (b : byte) : bool :=
  Byte.eqb b x20 || Byte.eqb b x09 || Byte.eqb b x0a || Byte.eqb b x0d.

Fixpoint skip_ws (s : bytes) : bytes :=
  match s with
  | b :: t => if is_ws b then skip_ws t else s
  | [] => []
  end.

Definition hex_val (b : byte) : option Z :=
  let v := byte_to_Z b in
  if (48 <=? v) && (v <=? 57) then Some (v - 48)
  else if (97 <=? v) && (v <=? 102) then Some (v - 87)
  else if (65 <=? v) && (v <=? 70) then Some (v - 55)
  else None.

(** UTF-8 of a code point written as a four-digit escape.  A surrogate
    half becomes U+FFFD; decoded strings are only compared with the ASCII
    field names, which no such escape can spell. *)
Definition utf8 (cp : Z) : bytes :=
  if cp <? 128 then [byte_of_Z cp]
  else if cp <? 2048 then [byte_of_Z (192 + cp / 64); byte_of_Z (128 + cp mod 64)]
  else if (55296 <=? cp) && (cp <=? 57343) then [xef; xbf; xbd]
  else [byte_of_Z (224 + cp / 4096);
        byte_of_Z (128 + (cp / 64) mod 64);
        byte_of_Z (128 + cp mod 64)].

(** Body of a string literal, after the opening quote: the unescaped
    content and what follows the closing quote. *)
Fixpoint scan_string (s : bytes) : option (bytes * bytes) :=
  let cons_to (pre : bytes) (r : option (bytes * bytes)) :=
    match r with
    | Some (str, rest) => Some (pre ++ str, rest)
    | None => None
    end in
  match s with
  | [] => None
  | b :: t =>
      if Byte.eqb b quote then Some ([], t)
      else if Byte.eqb b backslash then
        match t with
        | [] => None
        | e :: t1 =>
            match e with
            | x22 => cons_to [x22] (scan_string t1)
            | x5c => cons_to [x5c] (scan_string t1)
            | "/"%byte => cons_to ["/"%byte] (scan_string t1)
            | "b"%byte => cons_to [x08] (scan_string t1)
            | "f"%byte => cons_to [x0c] (scan_string t1)
            | "n"%byte => cons_to [x0a] (scan_string t1)
            | "r"%byte => cons_to [x0d] (scan_string t1)
            | "t"%byte => cons_to [x09] (scan_string t1)
            | "u"%byte =>
                match t1 with
                | h1 :: h2 :: h3 :: h4 :: t2 =>
                    match hex_val h1, hex_val h2, hex_val h3, hex_val h4 with
                    | Some a, Some b', Some c, Some d =>
                        cons_to (utf8 (a * 4096 + b' * 256 + c * 16 + d))
                                (scan_string t2)
                    | _, _, _, _ => None
                    end
                | _ => None
                end
            | _ => None
            end
        end
      else if byte_to_Z b <? 32 then None
      else cons_to [b] (scan_string t)
  end.

Fixpoint span_digits (s : bytes) : bytes * bytes :=
  match s with
  | b :: t =>
      if Strconv.is_digit b
      then let (ds, rest) := span_digits t in (b :: ds, rest)
      else ([], s)
  | [] => ([], [])
  end.

(** A number literal: an optional minus sign, an integer part without
    leading zero, an optional fraction and an optional exponent. *)
Definition scan_number (s : bytes) : option (bytes * bytes) :=
  let (sign, s1) :=
    match s with
    | "-"%byte :: t => (["-"%byte], t)
    | _ => ([], s)
    end in
  let int_part :=
    match s1 with
    | "0"%byte :: t => Some (["0"%byte], t)
    | d :: t =>
        if Strconv.is_digit d
        then let (ds, rest) := span_digits t in Some (d :: ds, rest)
        else None
    | [] => None
    end in
  match int_part with
  | None => None
  | Some (ip, s2) =>
      let frac_part :=
        match s2 with
        | "."%byte :: t =>
            let (fs, rest) := span_digits t in
            match fs with
            | [] => None
            | _ => Some ("."%byte :: fs, rest)
            end
        | _ => Some ([], s2)
        end in
      match frac_part with
      | None => None
      | Some (fp, s3) =>
          let exp_digits (mark : bytes) (t : bytes) :=
            let (es, rest) := span_digits t in
            match es with
            | [] => None
            | _ => Some (sign ++ ip ++ fp ++ mark ++ es, rest)
            end in
          match s3 with
          | "e"%byte :: "+"%byte :: t => exp_digits (lit "e+") t
          | "e"%byte :: "-"%byte :: t => exp_digits (lit "e-") t
          | "e"%byte :: t => exp_digits (lit "e") t
          | "E"%byte :: "+"%byte :: t => exp_digits (lit "E+") t
          | "E"%byte :: "-"%byte :: t => exp_digits (lit "E-") t
          | "E"%byte :: t => exp_digits (lit "E") t
          | _ => Some (sign ++ ip ++ fp, s3)
          end
      end
  end.

(** The decoder refuses documents nested deeper than this. *)
Definition maxNestingDepth : Z := 10000.

(** One value, with the bytes that follow it.  Every recursive call is
    made on a strictly shorter input, so a fuel above the length of the
    input is never exhausted. *)
Fixpoint parse_value (fuel : nat) (depth : Z) (s : bytes)
  : option (json * bytes) :=
  match fuel with
  | O => None
  | S f =>
      match skip_ws s with
      | "{"%byte :: t =>
          if maxNestingDepth <=? depth then None else
          match skip_ws t with
          | "}"%byte :: t' => Some (JObj [], t')
          | _ =>
              match parse_members f (depth + 1) t with
              | Some (ms, t') => Some (JObj ms, t')
              | None => None
              end
          end
      | "["%byte :: t =>
          if maxNestingDepth <=? depth then None else
          match skip_ws t with
          | "]"%byte :: t' => Some (JArr [], t')
          | _ =>
              match parse_elements f (depth + 1) t with
              | Some (es, t') => Some (JArr es, t')
              | None => None
              end
          end
      | x22 :: t =>
          match scan_string t with
          | Some (str, t') => Some (JStr str, t')
          | None => None
          end
      | "t"%byte :: "r"%byte :: "u"%byte :: "e"%byte :: t =>
          Some (JBool true, t)
      | "f"%byte :: "a"%byte :: "l"%byte :: "s"%byte :: "e"%byte :: t =>
          Some (JBool false, t)
      | "n"%byte :: "u"%byte :: "l"%byte :: "l"%byte :: t =>
          Some (JNull, t)
      | s' =>
          match scan_number s' with
          | Some (l, t) => Some (JNum l, t)
          | None => None
          end
      end
  end
with parse_members (fuel : nat) (depth : Z) (s : bytes)
  : option (list (bytes * json) * bytes) :=
  match fuel with
  | O => None
  | S f =>
      match skip_ws s with
      | x22 :: t =>
          match scan_string t with
          | Some (key, t1) =>
              match skip_ws t1 with
              | ":"%byte :: t2 =>
                  match parse_value f depth t2 with
                  | Some (v, t3) =>
                      match skip_ws t3 with
                      | ","%byte :: t4 =>
                          match parse_members f depth t4 with
                          | Some (ms, t5) => Some ((key, v) :: ms, t5)
                          | None => None
                          end
                      | "}"%byte :: t4 => Some ([(key, v)], t4)
                      | _ => None
                      end
                  | None => None
                  end
              | _ => None
              end
          | None => None
          end
      | _ => None
      end
  end
with parse_elements (fuel : nat) (depth : Z) (s : bytes)
  : option (list json * bytes) :=
  match fuel with
  | O => None
  | S f =>
      match parse_value f depth s with
      | Some (v, t1) =>
          match skip_ws t1 with
          | ","%byte :: t2 =>
              match parse_elements f depth t2 with
              | Some (es, t3) => Some (v :: es, t3)
              | None => None
              end
          | "]"%byte :: t2 => Some ([v], t2)
          | _ => None
          end
      | None => None
      end
  end.

(** A whole document: one value, white space around it, nothing else. *)
Definition parse (data : bytes) : option json :=
  match parse_value (S (List.length data)) 0 data with
  | Some (v, rest) =>
      match skip_ws rest with
      | [] => Some v
      | _ => None
      end
  | None => None
  end.

Definition to_lower (b : byte) : byte :=
  let v := byte_to_Z b in
  if (65 <=? v) && (v <=? 90) then byte_of_Z (v + 32) else b.

(** Object keys match field names exactly or up to ASCII case. *)
Definition key_matches (name key : bytes) : bool :=
  bytes_eqb (map to_lower key) name.

End Json.

(* ================================================================= *)
(** ** Errors *)

(** gRPC status codes the service returns. *)
Module Codes.
Inductive Code : Type :=
| InvalidArgument | NotFound | DeadlineExceeded | Canceled | Internal
| AlreadyExists.
End Codes.

Inductive error : Type :=
| ErrorString (msg : string)          (* fmt.Errorf / errors.New *)
| ErrRecordNotFound                   (* gorm.ErrRecordNotFound *)
| ErrDuplicatedKey                    (* primary-key violation on insert *)
| ErrDeadlineExceeded                 (* context.DeadlineExceeded *)
| ErrCanceled                         (* context.Canceled *)
| StatusError (c : Codes.Code) (msg : string).

Definition error_message (e : error) : string :=
  match e with
  | ErrorString m => m
  | ErrRecordNotFound => "record not found"
  | ErrDuplicatedKey => "duplicated key not allowed"
  | ErrDeadlineExceeded => "context deadline exceeded"
  | ErrCanceled => "context canceled"
  | StatusError _ m => m
  end.

(** What a call yields: values, an error, or a run-time panic (slice index
    out of range). *)
Inductive result (A : Type) : Type :=
| Ok (a : A)
| Err (e : error)
| Panic.
Arguments Ok {A} a.
Arguments Err {A} e.
Arguments Panic {A}.

(* ================================================================= *)
(** ** internal/utils/pagination/cursor.go *)

Module Pagination.

(** [type Cursor struct { ActorID uint64; UpdatedUnix int64 }] with JSON
    names [actor_id] and [updated_unix,omitempty]. *)
Record Cursor : Type := mkCursor {
  ActorID : Z;
  UpdatedUnix : Z
}.

Definition zero : Cursor := mkCursor 0 0.

Definition q (name : string) : bytes :=
  Json.quote :: lit name ++ [Json.quote].

(** [json.Marshal(c)]: fields in declaration order, the second left out
    when it is zero.  Marshalling two integers has no failing case. *)
Definition json_Marshal (c : Cursor) : bytes :=
  lit "{" ++ q "actor_id" ++ lit ":" ++ Strconv.FormatUint (ActorID c)
    ++ (if UpdatedUnix c =? 0 then []
        else lit "," ++ q "updated_unix" ++ lit ":"
               ++ Strconv.FormatInt (UpdatedUnix c))
    ++ lit "}".

(** Storing one object member into the cursor: [null] leaves the field
    alone, a number literal must parse in the field's type, any other
    value is a type error, unknown keys are skipped. *)
Definition store_member (c : Cursor) (m : bytes * Json.json)
  : option Cursor :=
  let (key, v) := m in
  if Json.key_matches (lit "actor_id") key then
    match v with
    | Json.JNull => Some c
    | Json.JNum l =>
        match Strconv.ParseUint l with
        | Some n => Some (mkCursor n (UpdatedUnix c))
        | None => None
        end
    | _ => None
    end
  else if Json.key_matches (lit "updated_unix") key then
    match v with
    | Json.JNull => Some c
    | Json.JNum l =>
        match Strconv.ParseInt l with
        | Some n => Some (mkCursor (ActorID c) n)
        | None => None
        end
    | _ => None
    end
  else Some c.

(** Members are stored in document order, so a repeated key keeps its
    last value; one type error fails the whole call. *)
Fixpoint store_members (c : Cursor) (ms : list (bytes * Json.json))
  : option Cursor :=
  match ms with
  | [] => Some c
  | m :: rest =>
      match store_member c m with
      | Some c' => store_members c' rest
      | None => None
      end
  end.

(** [json.Unmarshal(b, &c)] on a zero [c]: the document must be well
    formed; [null] stores nothing; an object stores its members; any other
    value is a type error. *)
Definition json_Unmarshal (data : bytes) : option Cursor :=
  match Json.parse data with
  | Some Json.JNull => Some zero
  | Some (Json.JObj ms) => store_members zero ms
  | Some _ => None
  | None => None
  end.

Definition errInvalidToken : error := ErrorString "invalid pagination token".

(** [func Encode(c Cursor) (string, error)]. *)
Definition Encode (c : Cursor) : result bytes :=
  Ok (Base64.EncodeToString (json_Marshal c)).

(** [func Decode(token string) (Cursor, error)]. *)
Definition Decode (token : bytes) : result Cursor :=
  match token with
  | [] => Ok zero
  | _ =>
      match Base64.DecodeString token with
      | None => Err errInvalidToken
      | Some b =>
          match json_Unmarshal b with
          | None => Err errInvalidToken
          | Some c => Ok c
          end
      end
  end.

End Pagination.

(* ================================================================= *)
(** ** internal/db/models.go *)

Module Db.

(** [type Decision struct]: composite primary key (ActorID, RecipientID);
    both time fields are milliseconds since the epoch. *)
Record Decision : Type := mkDecision {
  ActorID : Z;
  RecipientID : Z;
  Liked : bool;
  CreatedAt : Z;
  UpdatedAt : Z
}.

(** The [decisions] table. *)
Definition Table := list Decision.

Definition pk (d : Decision) : Z * Z := (ActorID d, RecipientID d).

Definition same_pk (d e : Decision) : bool :=
  (ActorID d =? ActorID e) && (RecipientID d =? RecipientID e).

(** The primary-key constraint: at most one row per ordered pair. *)
Definition pk_unique (t : Table) : Prop := NoDup (map pk t).

(** [time.UnixMilli(ms)] and [t.UnixMilli()] on millisecond timestamps. *)
Definition time_UnixMilli (ms : Z) : Z := ms.
Definition UnixMilli (t : Z) : Z := t.

End Db.

(* ================================================================= *)
(** ** The GORM calls the repository makes *)

Module Gorm.
Import Db.

(** *** Query builder: [Table], [Where], [Order], [Limit], [Find], [Count] *)

Record Query : Type := mkQuery {
  q_rows : Table;
  q_where : list (Decision -> bool);
  q_order : option (Decision -> Decision -> bool);
  q_limit : option Z
}.

Definition From (t : Table) : Query := mkQuery t [] None None.

Definition Where (p : Decision -> bool) (q : Query) : Query :=
  mkQuery (q_rows q) (q_where q ++ [p]) (q_order q) (q_limit q).

Definition Order (before : Decision -> Decision -> bool) (q : Query) : Query :=
  mkQuery (q_rows q) (q_where q) (Some before) (q_limit q).

Definition Limit (n : Z) (q : Query) : Query :=
  mkQuery (q_rows q) (q_where q) (q_order q) (Some n).

Definition holds_all (ps : list (Decision -> bool)) (d : Decision) : bool :=
  forallb (fun p => p d) ps.

Fixpoint insert_by (before : Decision -> Decision -> bool)
         (x : Decision) (l : list Decision) : list Decision :=
  match l with
  | [] => [x]
  | y :: t => if before x y then x :: y :: t else y :: insert_by before x t
  end.

Definition sort_by (before : Decision -> Decision -> bool)
           (l : list Decision) : list Decision :=
  fold_right (insert_by before) [] l.

(** The first [k] rows, all of them when there are no more than [k]. *)
Definition take (k : Z) (l : list Decision) : list Decision :=
  if Z.of_nat (List.length l) <=? k then l else firstn (Z.to_nat k) l.

(** [LIMIT n] is emitted for [n >= 0] only; a negative limit means no
    limit. *)
Definition apply_limit (n : option Z) (l : list Decision) : list Decision :=
  match n with
  | Some k => if 0 <=? k then take k l else l
  | None => l
  end.

Definition apply_order (o : option (Decision -> Decision -> bool))
           (l : list Decision) : list Decision :=
  match o with
  | Some before => sort_by before l
  | None => l
  end.

(** The rows a query selects, in its order, before any limit. *)
Definition matching (q : Query) : list Decision :=
  apply_order (q_order q) (filter (holds_all (q_where q)) (q_rows q)).

(** [SELECT ... WHERE ... ORDER BY ... LIMIT ...]. *)
Definition Find (q : Query) : list Decision :=
  apply_limit (q_limit q) (matching q).

(** [SELECT count( * ) ... WHERE ...]. *)
Definition Count (q : Query) : Z :=
  Z.of_nat (List.length (filter (holds_all (q_where q)) (q_rows q))).

(** [First(&d, cond)]: the first matching row, or [ErrRecordNotFound]. *)
Definition First (p : Decision -> bool) (t : Table) : option Decision :=
  find p t.

(** *** Writes *)

Inductive Column : Type :=
| actor_id | recipient_id | liked | created_at | updated_at.

(** [SET col = excluded.col]. *)
Definition assign (c : Column) (excluded row : Decision) : Decision :=
  match c with
  | actor_id =>
      mkDecision (ActorID excluded) (RecipientID row) (Liked row)
                 (CreatedAt row) (UpdatedAt row)
  | recipient_id =>
      mkDecision (ActorID row) (RecipientID excluded) (Liked row)
                 (CreatedAt row) (UpdatedAt row)
  | liked =>
      mkDecision (ActorID row) (RecipientID row) (Liked excluded)
                 (CreatedAt row) (UpdatedAt row)
  | created_at =>
      mkDecision (ActorID row) (RecipientID row) (Liked row)
                 (CreatedAt excluded) (UpdatedAt row)
  | updated_at =>
      mkDecision (ActorID row) (RecipientID row) (Liked row)
                 (CreatedAt row) (UpdatedAt excluded)
  end.

Definition assign_all (cs : list Column) (excluded row : Decision) : Decision :=
  fold_left (fun r c => assign c excluded r) cs row.

(** The row an insert writes for a struct whose time fields are unset:
    [autoCreateTime] and [autoUpdateTime] stamp both with the clock. *)
Definition stamped (now : Z) (actor recipient : Z) (like : bool) : Decision :=
  mkDecision actor recipient like now now.

(** [Create(&d)]: plain insert; a second row for the same key violates
    the primary key. *)
Definition Create (new : Decision) (t : Table) : Table * option error :=
  if existsb (same_pk new) t then (t, Some ErrDuplicatedKey)
  else (t ++ [new], None).

(** [Clauses(clause.OnConflict{Columns: pk, DoUpdates:
    clause.AssignmentColumns(cols)}).Create(&d)]:
    [INSERT ... ON CONFLICT (actor_id, recipient_id) DO UPDATE SET
    col = excluded.col] for the listed columns and no others. *)
Fixpoint CreateOnConflict (cols : list Column) (new : Decision) (t : Table)
  : Table :=
  match t with
  | [] => [new]
  | row :: rest =>
      if same_pk row new then assign_all cols new row :: rest
      else row :: CreateOnConflict cols new rest
  end.

Fixpoint update_where (p : Decision -> bool) (f : Decision -> Decision)
         (t : Table) : Table :=
  match t with
  | [] => []
  | row :: rest =>
      (if p row then f row else row) :: update_where p f rest
  end.

(** [Save(&d)]: with a zero primary-key field the struct is inserted;
    otherwise every column of the row with that key is written from the
    struct and [updated_at] is stamped with the clock (an update that
    matches no row falls back to an upsert of all columns). *)
Definition Save (now : Z) (d : Decision) (t : Table) : Table * option error :=
  if (ActorID d =? 0) || (RecipientID d =? 0) then Create d t
  else
    let d' := mkDecision (ActorID d) (RecipientID d) (Liked d)
                         (CreatedAt d) now in
    if existsb (same_pk d') t
    then (update_where (same_pk d') (fun _ => d') t, None)
    else (t ++ [d'], None).

End Gorm.

(* ================================================================= *)
(** ** internal/repository/decision_repo.go *)

Module Repository.
Import Db Gorm.

(** [func getString(s *string) string]. *)
Definition getString (s : option bytes) : bytes :=
  match s with
  | None => []
  | Some v => v
  end.

(** [d.recipient_id = ? AND d.liked = true]. *)
Definition liked_into (recipientID : Z) (d : Decision) : bool :=
  (RecipientID d =? recipientID) && Liked d.

(** [NOT EXISTS (SELECT 1 FROM decisions d2 WHERE d2.actor_id = ? AND
    d2.recipient_id = d.actor_id AND d2.liked = false)]. *)
Definition not_passed_by (t : Table) (recipientID : Z) (d : Decision) : bool :=
  negb (existsb (fun d2 => (ActorID d2 =? recipientID)
                           && (RecipientID d2 =? ActorID d)
                           && negb (Liked d2)) t).

(** [NOT EXISTS (SELECT 1 FROM decisions WHERE actor_id = d.recipient_id
    AND recipient_id = d.actor_id AND liked = true)]. *)
Definition not_liked_back (t : Table) (d : Decision) : bool :=
  negb (existsb (fun d2 => (ActorID d2 =? RecipientID d)
                           && (RecipientID d2 =? ActorID d)
                           && Liked d2) t).

(** [(d.updated_at < ? OR (d.updated_at = ? AND d.actor_id < ?))]. *)
Definition after_cursor (ts : Z) (actor : Z) (d : Decision) : bool :=
  (UpdatedAt d <? ts) || ((UpdatedAt d =? ts) && (ActorID d <? actor)).

(** [ORDER BY d.updated_at DESC, d.actor_id DESC]: [x] is listed no later
    than [y]. *)
Definition updated_desc_actor_desc (x y : Decision) : bool :=
  (UpdatedAt y <? UpdatedAt x)
  || ((UpdatedAt x =? UpdatedAt y) && (ActorID y <=? ActorID x)).

Definition len (l : list Decision) : Z := Z.of_nat (List.length l).

(** [s[i]]: out of range is a run-time panic. *)
Definition index (l : list Decision) (i : Z) : option Decision :=
  if (i <? 0) || (len l <=? i) then None else nth_error l (Z.to_nat i).

(** [s[:n]] for [0 <= n <= len(s)]. *)
Definition slice_to (l : list Decision) (n : Z) : list Decision :=
  take n l.

(** [if cursor.ActorID > 0 && cursor.UpdatedUnix > 0 { query =
    query.Where(...) }]. *)
Definition apply_cursor (cursor : Pagination.Cursor) (query : Query) : Query :=
  if (0 <? Pagination.ActorID cursor) && (0 <? Pagination.UpdatedUnix cursor)
  then
    let ts := time_UnixMilli (Pagination.UpdatedUnix cursor) in
    Where (after_cursor ts (Pagination.ActorID cursor)) query
  else query.

(** The tail both list queries share: cursor filter, fetch, next token. *)
Definition page_of (query : Query) (cursor : Pagination.Cursor) (limit : Z)
  : result (list Decision * option bytes) :=
  let query := apply_cursor cursor query in
  let decisions := Find query in
  if limit <? len decisions then
    match index decisions (Int.sub limit 1) with
    | None => Panic
    | Some last =>
        let token :=
          match Pagination.Encode
                  (Pagination.mkCursor (ActorID last) (UnixMilli (UpdatedAt last)))
          with
          | Ok tok => tok
          | _ => []
          end in
        Ok (slice_to decisions limit, Some token)
    end
  else Ok (decisions, None).

(** The query [GetLikers] builds before the cursor is applied. *)
Definition likers_query (t : Table) (recipientID : Z) (limit : Z) : Query :=
  Limit (Int.add limit 1)
    (Order updated_desc_actor_desc
       (Where (not_passed_by t recipientID)
          (Where (liked_into recipientID) (From t)))).

(** [func (r *DecisionRepository) GetLikers(ctx, recipientID,
    paginationToken, limit) ([]db.Decision, *string, error)]. *)
Definition GetLikers (t : Table) (recipientID : Z)
           (paginationToken : option bytes) (limit : Z)
  : result (list Decision * option bytes) :=
  match Pagination.Decode (getString paginationToken) with
  | Err e => Err e
  | Panic => Panic
  | Ok cursor => page_of (likers_query t recipientID limit) cursor limit
  end.

(** The query [GetNewLikers] builds before the cursor is applied. *)
Definition new_likers_query (t : Table) (recipientID : Z) (limit : Z) : Query :=
  Limit (Int.add limit 1)
    (Order updated_desc_actor_desc
       (Where (not_passed_by t recipientID)
          (Where (fun d => liked_into recipientID d && not_liked_back t d)
             (From t)))).

(** [func (r *DecisionRepository) GetNewLikers(...)]. *)
Definition GetNewLikers (t : Table) (recipientID : Z)
           (paginationToken : option bytes) (limit : Z)
  : result (list Decision * option bytes) :=
  match Pagination.Decode (getString paginationToken) with
  | Err e => Err e
  | Panic => Panic
  | Ok cursor => page_of (new_likers_query t recipientID limit) cursor limit
  end.

(** [func (r *DecisionRepository) CountLikers(ctx, recipientID)]. *)
Definition CountLikers (t : Table) (recipientID : Z) : Z :=
  Count (Where (not_passed_by t recipientID)
           (Where (liked_into recipientID) (From t))).

(** [func (r *DecisionRepository) HasLiked(ctx, actorID, recipientID)]. *)
Definition HasLiked (t : Table) (actorID recipientID : Z) : bool :=
  0 <? Count (Where (fun d => (ActorID d =? actorID)
                              && (RecipientID d =? recipientID)
                              && Liked d) (From t)).

(** [CreateOrUpdateDecision] as the service and the tests call it
    (second listing, returns [error] only): one insert with
    [OnConflict{Columns: actor_id, recipient_id,
                DoUpdates: AssignmentColumns([]string{"liked"})}]. *)
Definition CreateOrUpdateDecision (now : Z) (t : Table)
           (actorID recipientID : Z) (like : bool) : Table * option error :=
  let decision := stamped now actorID recipientID like in
  (CreateOnConflict [liked] decision t, None).

(** The first listing of the file: read the row, insert or save, and
    return the previous value. *)
Module ReadFirst.

(** [func (r *DecisionRepository) CreateOrUpdateDecision(...)
    (prev *bool, err error)]. *)
Definition CreateOrUpdateDecision (now : Z) (t : Table)
           (actorID recipientID : Z) (like : bool)
  : Table * (option bool * option error) :=
  match First (fun d => (ActorID d =? actorID)
                        && (RecipientID d =? recipientID)) t with
  | None =>
      let newDecision := stamped now actorID recipientID like in
      match Create newDecision t with
      | (t', Some err) => (t', (None, Some err))
      | (t', None) => (t', (None, None))
      end
  | Some decision =>
      let prevVal := Liked decision in
      if negb (Bool.eqb (Liked decision) like) then
        let decision := mkDecision (ActorID decision) (RecipientID decision)
                                   like (CreatedAt decision)
                                   (UpdatedAt decision) in
        match Save now decision t with
        | (t', Some err) => (t', (Some prevVal, Some err))
        | (t', None) => (t', (Some prevVal, None))
        end
      else (t, (Some prevVal, None))
  end.

End ReadFirst.

End Repository.

(** [db.SeedTestData]: the seed writes its decisions with
    [DoUpdates: AssignmentColumns([]string{"liked", "updated_at"})]. *)
Definition seed_decision (now : Z) (t : Db.Table)
           (actorID recipientID : Z) (like : bool) : Db.Table :=
  Gorm.CreateOnConflict [Gorm.liked; Gorm.updated_at]
    (Gorm.stamped now actorID recipientID like) t.

(* ================================================================= *)
(** ** internal/errors/mapper.go *)

Module SvcErr.

(** [func Map(err error) error]. *)
Definition Map (err : error) : error :=
  match err with
  | ErrRecordNotFound => StatusError Codes.NotFound "record not found"
  | ErrDeadlineExceeded => StatusError Codes.DeadlineExceeded "request timed out"
  | ErrCanceled => StatusError Codes.Canceled "request was canceled"
  | e => StatusError Codes.Internal (error_message e)
  end.

(** [func InvalidArgument(msg string) error]. *)
Definition InvalidArgument (msg : string) : error :=
  StatusError Codes.InvalidArgument msg.

End SvcErr.

(* ================================================================= *)
(** ** internal/service/explore/service.go *)

Module Service.
Import Db.

(** Calls the service makes on its collaborators, in order. *)
Inductive Event : Type :=
| CallCreateOrUpdateDecision (actorID recipientID : Z) (like : bool)
| CallHasLiked (actorID recipientID : Z)
| CallGetLikers (recipientID : Z) (token : option bytes) (limit : Z)
| CallGetNewLikers (recipientID : Z) (token : option bytes) (limit : Z)
| CacheIncr (key : bytes)
| CacheDecr (key : bytes)
| CacheExpire (key : bytes).

(** What the service works on: the table, the Redis counters and the
    record of calls made so far. *)
Record World : Type := mkWorld {
  w_db : Table;
  w_cache : list (bytes * Z);
  w_log : list Event
}.

(** State passing. *)
Definition M (A : Type) : Type := World -> A * World.

Definition ret {A} (a : A) : M A := fun w => (a, w).

Definition bind {A B} (m : M A) (k : A -> M B) : M B :=
  fun w => let (a, w') := m w in k a w'.

Notation "x <- m ;; k" := (bind m (fun x => k))
  (at level 61, m at next level, right associativity).
Notation "m ;;; k" := (bind m (fun _ => k))
  (at level 61, right associativity).

Definition emit (e : Event) : M unit :=
  fun w => (tt, mkWorld (w_db w) (w_cache w) (w_log w ++ [e])).

(** *** Repository calls *)

Definition repo_CreateOrUpdateDecision (now : Z) (actorID recipientID : Z)
           (like : bool) : M (option error) :=
  emit (CallCreateOrUpdateDecision actorID recipientID like) ;;;
  fun w =>
    let (t', err) :=
      Repository.CreateOrUpdateDecision now (w_db w) actorID recipientID like in
    (err, mkWorld t' (w_cache w) (w_log w)).

Definition repo_HasLiked (actorID recipientID : Z) : M bool :=
  emit (CallHasLiked actorID recipientID) ;;;
  fun w => (Repository.HasLiked (w_db w) actorID recipientID, w).

Definition repo_GetLikers (recipientID : Z) (token : option bytes) (limit : Z)
  : M (result (list Decision * option bytes)) :=
  emit (CallGetLikers recipientID token limit) ;;;
  fun w => (Repository.GetLikers (w_db w) recipientID token limit, w).

Definition repo_GetNewLikers (recipientID : Z) (token : option bytes)
           (limit : Z) : M (result (list Decision * option bytes)) :=
  emit (CallGetNewLikers recipientID token limit) ;;;
  fun w => (Repository.GetNewLikers (w_db w) recipientID token limit, w).

(** *** Redis counters *)

(** [func (c *RedisCache) KeyForLikeCount(userID uint64) string]. *)
Definition KeyForLikeCount (userID : Z) : bytes :=
  lit "likes:count:" ++ Strconv.FormatUint userID.

Fixpoint cache_get (c : list (bytes * Z)) (key : bytes) : option Z :=
  match c with
  | [] => None
  | (k, v) :: rest => if bytes_eqb k key then Some v else cache_get rest key
  end.

Fixpoint cache_put (c : list (bytes * Z)) (key : bytes) (v : Z)
  : list (bytes * Z) :=
  match c with
  | [] => [(key, v)]
  | (k, v0) :: rest =>
      if bytes_eqb k key then (k, v) :: rest
      else (k, v0) :: cache_put rest key v
  end.

(** [INCR] and [DECR] start a missing key at zero. *)
Definition cache_add (delta : Z) (key : bytes) : M Z :=
  fun w =>
    let v := match cache_get (w_cache w) key with
             | Some n => n
             | None => 0
             end + delta in
    (v, mkWorld (w_db w) (cache_put (w_cache w) key v) (w_log w)).

Definition Incr (key : bytes) : M Z := emit (CacheIncr key) ;;; cache_add 1 key.
Definition Decr (key : bytes) : M Z := emit (CacheDecr key) ;;; cache_add (-1) key.
Definition Expire (key : bytes) : M unit := emit (CacheExpire key).

(** *** Requests and responses *)

Record PutDecisionRequest : Type := mkPutDecisionRequest {
  ActorUserId : bytes;
  RecipientUserId : bytes;
  LikedRecipient : bool
}.

Record PutDecisionResponse : Type := mkPutDecisionResponse {
  MutualLikes : bool
}.

Record ListLikedYouRequest : Type := mkListLikedYouRequest {
  ll_RecipientUserId : bytes;
  PaginationToken : option bytes
}.

Record Liker : Type := mkLiker {
  ActorId : bytes;
  UnixTimestamp : Z
}.

Record ListLikedYouResponse : Type := mkListLikedYouResponse {
  Likers : list Liker;
  NextPaginationToken : option bytes
}.

(** [uint64(x)] of an [int64]. *)
Definition to_uint64 (x : Z) : Z := x mod 18446744073709551616.

Definition liker_of (d : Decision) : Liker :=
  mkLiker (Strconv.FormatUint (ActorID d)) (to_uint64 (UnixMilli (UpdatedAt d))).

Definition list_response (r : result (list Decision * option bytes))
  : result ListLikedYouResponse :=
  match r with
  | Err e => Err (SvcErr.Map e)
  | Panic => Panic
  | Ok (decisions, nextToken) =>
      Ok (mkListLikedYouResponse (map liker_of decisions) nextToken)
  end.

(** [func (s *Service) ListLikedYou(ctx, req)]. *)
Definition ListLikedYou (req : ListLikedYouRequest)
  : M (result ListLikedYouResponse) :=
  match Strconv.ParseUint (ll_RecipientUserId req) with
  | None =>
      ret (Err (SvcErr.InvalidArgument
                  "recipient_user_id must be a valid uint64"))
  | Some recipientID =>
      r <- repo_GetLikers recipientID (PaginationToken req) 5 ;;
      ret (list_response r)
  end.

(** [func (s *Service) ListNewLikedYou(ctx, req)]. *)
Definition ListNewLikedYou (req : ListLikedYouRequest)
  : M (result ListLikedYouResponse) :=
  match Strconv.ParseUint (ll_RecipientUserId req) with
  | None =>
      ret (Err (SvcErr.InvalidArgument
                  "recipient_user_id must be a valid uint64"))
  | Some recipientID =>
      r <- repo_GetNewLikers recipientID (PaginationToken req) 5 ;;
      ret (list_response r)
  end.

(** [func (s *Service) PutDecision(ctx, req)]; [now] is the clock at the
    insert. *)
Definition PutDecision (now : Z) (req : PutDecisionRequest)
  : M (result PutDecisionResponse) :=
  match Strconv.ParseUint (ActorUserId req) with
  | None =>
      ret (Err (SvcErr.InvalidArgument "actor_user_id must be a valid uint64"))
  | Some actorID =>
      match Strconv.ParseUint (RecipientUserId req) with
      | None =>
          ret (Err (SvcErr.InvalidArgument
                      "recipient_user_id must be a valid uint64"))
      | Some recipientID =>
          if actorID =? recipientID then
            ret (Err (SvcErr.InvalidArgument "cannot decide on yourself"))
          else
            err <- repo_CreateOrUpdateDecision now actorID recipientID
                     (LikedRecipient req) ;;
            match err with
            | Some e => ret (Err (SvcErr.Map e))
            | None =>
                let key := KeyForLikeCount recipientID in
                (if LikedRecipient req then Incr key else Decr key) ;;;
                Expire key ;;;
                mutual <- (if LikedRecipient req
                           then repo_HasLiked recipientID actorID
                           else ret false) ;;
                ret (Ok (mkPutDecisionResponse mutual))
            end
      end
  end.

End Service.

(* ================================================================= *)
(** ** A caller that pages to the end *)

Module Client.
Import Db.

(** Call a list query without a token, then with each token it returns,
    and collect the pages; [None] when a call fails or [fuel] calls did
    not reach a page without a next token. *)
Fixpoint page_through
         (call : option bytes -> result (list Decision * option bytes))
         (fuel : nat) (token : option bytes) : option (list Decision) :=
  match fuel with
  | O => None
  | S f =>
      match call token with
      | Ok (rows, None) => Some rows
      | Ok (rows, Some next) =>
          match page_through call f (Some next) with
          | Some more => Some (rows ++ more)
          | None => None
          end
      | _ => None
      end
  end.

Definition all_likers (t : Table) (recipientID : Z) (limit : Z) (fuel : nat)
  : option (list Decision) :=
  page_through (fun tok => Repository.GetLikers t recipientID tok limit)
               fuel None.

End Client.

(* ================================================================= *)
(** ** internal/cache: the Redis counters *)

Module RedisCache.

(** Every value the service writes under a counter key is the decimal text
    of an integer, so a store keeps integers and hands them out in
    decimal.  Expiry is not modelled: a key stays until it is deleted. *)
Definition Store := list (bytes * Z).

(** [redis.Nil], the error of a [GET] on a missing key. *)
Definition Nil : error := ErrorString "redis: nil".

Definition is_Nil (e : error) : bool :=
  match e with
  | ErrorString m => String.eqb m "redis: nil"
  | _ => false
  end.

(** [func (c *RedisCache) Get(ctx, key) (string, error)]. *)
Definition Get (c : Store) (key : bytes) : bytes * option error :=
  match Service.cache_get c key with
  | Some v => (Strconv.FormatInt v, None)
  | None => ([], Some Nil)
  end.

(** [func (c *RedisCache) Set(ctx, key, value, ttl) error], for an integer
    value or its decimal text. *)
Definition Set_ (c : Store) (key : bytes) (value : Z) : Store :=
  Service.cache_put c key value.

(** [func (c *RedisCache) Del(ctx, key) error]. *)
Definition Del (c : Store) (key : bytes) : Store :=
  filter (fun kv => negb (bytes_eqb (fst kv) key)) c.

(** [func (c *RedisCache) UpdateLikeCount(ctx, userID, count) error]. *)
Definition UpdateLikeCount (c : Store) (userID : Z) (count : Z) : Store :=
  let key := lit "likes:count:" ++ Strconv.FormatUint userID in
  Set_ c key count.

(** [func (c *RedisCache) GetLikeCount(ctx, userID) (int64, error)]. *)
Definition GetLikeCount (c : Store) (userID : Z) : Z * option error :=
  let key := lit "likes:count:" ++ Strconv.FormatUint userID in
  match Get c key with
  | (_, Some err) => if is_Nil err then (0, None) else (0, Some err)
  | (val, None) =>
      match Strconv.ParseInt val with
      | Some n => (n, None)
      | None => (0, Some (ErrorString "strconv.ParseInt: invalid syntax"))
      end
  end.

End RedisCache.

(* ================================================================= *)
(** ** internal/service/explore/service.go: [CountLikedYou] *)

Module ServiceCount.
Import Db Service.

(** Calls [CountLikedYou] makes on the cache and the repository, in
    order. *)
Inductive Call : Type :=
| CacheGet (key : bytes)
| CacheExpire (key : bytes)
| CacheSet (key : bytes) (value : bytes)
| RepoCountLikers (recipientID : Z).

Record CountLikedYouRequest : Type := mkCountLikedYouRequest {
  cl_RecipientUserId : bytes
}.

Record CountLikedYouResponse : Type := mkCountLikedYouResponse {
  Count : Z
}.

(** [func (s *Service) CountLikedYou(ctx, req)]: the response, the world
    after the call and the calls made. *)
Definition CountLikedYou (req : CountLikedYouRequest) (w : World)
  : (result CountLikedYouResponse * World) * list Call :=
  match Strconv.ParseUint (cl_RecipientUserId req) with
  | None =>
      ((Err (SvcErr.InvalidArgument
               "recipient_user_id must be a valid uint64"), w), [])
  | Some recipientID =>
      let key := KeyForLikeCount recipientID in
      let cached := fst (RedisCache.Get (w_cache w) key) in
      let hit :=
        match cached with
        | [] => None
        | _ => Strconv.ParseUint cached
        end in
      match hit with
      | Some n =>
          ((Ok (mkCountLikedYouResponse n), w), [CacheGet key; CacheExpire key])
      | None =>
          let count := Repository.CountLikers (w_db w) recipientID in
          let w' := mkWorld (w_db w) (RedisCache.Set_ (w_cache w) key count)
                            (w_log w) in
          ((Ok (mkCountLikedYouResponse (to_uint64 count)), w'),
           [CacheGet key; RepoCountLikers recipientID;
            CacheSet key (Strconv.FormatInt count)])
      end
  end.

End ServiceCount.

(* ================================================================= *)
(** * Properties *)

(** ** Decimal numbers *)

Module StrconvFacts.
Import Strconv.

Lemma digit_val_digit_byte d :
  0 <= d <= 9 -> digit_val (digit_byte d) = Some d.
Proof.
  intros H.
  assert (d = 0 \/ d = 1 \/ d = 2 \/ d = 3 \/ d = 4 \/ d = 5 \/ d = 6
          \/ d = 7 \/ d = 8 \/ d = 9) as Hd by lia.
  repeat (destruct Hd as [-> | Hd]; [reflexivity |]).
  subst d. reflexivity.
Qed.

Lemma is_digit_digit_byte d : 0 <= d <= 9 -> is_digit (digit_byte d) = true.
Proof.
  intros H. unfold is_digit. now rewrite digit_val_digit_byte.
Qed.

Lemma parse_digits_app s1 s2 acc :
  parse_digits (s1 ++ s2) acc =
  match parse_digits s1 acc with
  | Some v => parse_digits s2 v
  | None => None
  end.
Proof.
  revert acc. induction s1 as [|b s1 IH]; intros acc; simpl.
  - reflexivity.
  - destruct (digit_val b); [apply IH | reflexivity].
Qed.

Lemma format_digits_acc fuel : forall n acc,
  format_digits fuel n acc = format_digits fuel n [] ++ acc.
Proof.
  induction fuel as [|f IH]; intros n acc; simpl.
  - reflexivity.
  - destruct (n / 10 =? 0).
    + reflexivity.
    + rewrite IH. rewrite (IH _ [_]). now rewrite <- app_assoc.
Qed.

Lemma format_digits_step f n :
  format_digits (S f) n [] =
  if n / 10 =? 0 then [digit_byte (n mod 10)]
  else format_digits f (n / 10) [] ++ [digit_byte (n mod 10)].
Proof.
  simpl. destruct (n / 10 =? 0); [reflexivity | apply format_digits_acc].
Qed.

Lemma parse_format_digits fuel : forall n,
  0 <= n < 10 ^ Z.of_nat fuel ->
  parse_digits (format_digits fuel n []) 0 = Some n.
Proof.
  induction fuel as [|f IH]; intros n Hn.
  - simpl in *. f_equal. lia.
  - rewrite format_digits_step.
    assert (0 <= n mod 10 < 10) as Hm by (apply Z.mod_pos_bound; lia).
    pose proof (Z.div_mod n 10 ltac:(lia)) as Hdm.
    destruct (Z.eqb_spec (n / 10) 0) as [Hq | Hq].
    + cbn [parse_digits]. rewrite digit_val_digit_byte by lia. f_equal. lia.
    + rewrite parse_digits_app, IH.
      * cbn [parse_digits]. rewrite digit_val_digit_byte by lia. f_equal. lia.
      * split; [apply Z.div_pos; lia |].
        apply Z.div_lt_upper_bound; [lia |].
        rewrite Nat2Z.inj_succ, Z.pow_succ_r in Hn by lia. lia.
Qed.

(** A positive number is printed without a leading zero. *)
Lemma format_digits_shape fuel : forall n,
  0 < n < 10 ^ Z.of_nat fuel ->
  exists m ds,
    format_digits fuel n [] = digit_byte m :: ds
    /\ 1 <= m <= 9
    /\ forallb is_digit ds = true.
Proof.
  induction fuel as [|f IH]; intros n Hn.
  - simpl in Hn. lia.
  - rewrite format_digits_step.
    assert (0 <= n mod 10 < 10) as Hm by (apply Z.mod_pos_bound; lia).
    pose proof (Z.div_mod n 10 ltac:(lia)) as Hdm.
    destruct (Z.eqb_spec (n / 10) 0) as [Hq | Hq].
    + exists (n mod 10), []. repeat split; simpl; try lia.
    + destruct (IH (n / 10)) as (m & ds & E & Hm' & Hds).
      * assert (0 <= n / 10) by (apply Z.div_pos; lia).
        split; [lia |].
        apply Z.div_lt_upper_bound; [lia |].
        rewrite Nat2Z.inj_succ, Z.pow_succ_r in Hn by lia. lia.
      * exists m, (ds ++ [digit_byte (n mod 10)]).
        rewrite E. repeat split; try lia.
        rewrite forallb_app, Hds. simpl.
        now rewrite is_digit_digit_byte by lia.
Qed.

Lemma FormatUint_zero : FormatUint 0 = lit "0".
Proof. reflexivity. Qed.

Lemma pow_10_20 : Int.max_uint64 < 10 ^ Z.of_nat 20.
Proof. reflexivity. Qed.

Lemma ParseUint_FormatUint n :
  Int.is_uint64 n -> ParseUint (FormatUint n) = Some n.
Proof.
  intros [H0 H1]. unfold ParseUint, FormatUint.
  pose proof pow_10_20.
  rewrite parse_format_digits by lia.
  destruct (format_digits 20 n []) eqn:E.
  - rewrite format_digits_step in E.
    destruct (n / 10 =? 0); [discriminate |].
    now destruct (format_digits 19 (n / 10) []).
  - destruct (Z.leb_spec n Int.max_uint64); [reflexivity | lia].
Qed.

Lemma digit_not_sign b :
  is_digit b = true -> b <> "-"%byte /\ b <> "+"%byte.
Proof. intros H; split; intros ->; discriminate H. Qed.

Lemma ParseInt_unsigned b ds :
  is_digit b = true ->
  ParseInt (b :: ds) =
  match parse_digits (b :: ds) 0 with
  | Some v =>
      if (Int.min_int64 <=? v) && (v <=? Int.max_int64) then Some v else None
  | None => None
  end.
Proof.
  intros H. destruct b; try discriminate H; reflexivity.
Qed.

Lemma ParseInt_FormatInt n :
  Int.is_int64 n -> ParseInt (FormatInt n) = Some n.
Proof.
  intros [H0 H1]. unfold FormatInt.
  unfold Int.min_int64, Int.max_int64 in *.
  pose proof pow_10_20. unfold Int.max_uint64 in *.
  destruct (Z.ltb_spec n 0) as [Hneg | Hpos].
  - destruct (format_digits_shape 20 (- n)) as (m & ds & E & Hm & Hds);
      [lia |].
    pose proof (parse_format_digits 20 (- n) ltac:(lia)) as P.
    rewrite E in *. cbn [ParseInt]. unfold Int.min_int64, Int.max_int64.
    rewrite P.
    destruct (Z.leb_spec (-9223372036854775808) (- - n)); [| lia].
    destruct (Z.leb_spec (- - n) 9223372036854775807); [| lia].
    simpl. f_equal. lia.
  - destruct (Z.eq_dec n 0) as [-> | Hnz]; [reflexivity |].
    destruct (format_digits_shape 20 n) as (m & ds & E & Hm & Hds); [lia |].
    pose proof (parse_format_digits 20 n ltac:(lia)) as P.
    rewrite E in *.
    rewrite ParseInt_unsigned by (apply is_digit_digit_byte; lia).
    rewrite P. unfold Int.min_int64, Int.max_int64.
    destruct (Z.leb_spec (-9223372036854775808) n); [| lia].
    destruct (Z.leb_spec n 9223372036854775807); [| lia].
    reflexivity.
Qed.

End StrconvFacts.

(** ** Base64 *)

Module Base64Facts.
Import Base64.

Lemma byte_to_Z_range b : 0 <= byte_to_Z b <= 255.
Proof.
  unfold byte_to_Z. pose proof (Byte.to_N_bounded b). lia.
Qed.

Lemma byte_of_to_Z b : byte_of_Z (byte_to_Z b) = b.
Proof.
  unfold byte_of_Z, byte_to_Z. now rewrite N2Z.id, Byte.of_to_N.
Qed.

Lemma sextet_cases i :
  0 <= i < 64 -> In i (map Z.of_nat (seq 0 64)).
Proof.
  intros H. rewrite <- (Z2Nat.id i) by lia.
  apply in_map, in_seq. lia.
Qed.

Lemma dec_enc i : 0 <= i < 64 -> dec (enc i) = Some i.
Proof.
  intros H.
  assert (forallb (fun j => match dec (enc j) with
                            | Some k => k =? j
                            | None => false
                            end) (map Z.of_nat (seq 0 64)) = true) as A
      by (vm_compute; reflexivity).
  rewrite forallb_forall in A. specialize (A i (sextet_cases i H)).
  destruct (dec (enc i)); [| discriminate].
  apply Z.eqb_eq in A. now subst.
Qed.

Lemma enc_plain i : is_newline (enc i) = false.
Proof.
  unfold enc.
  assert (forallb (fun b => negb (is_newline b)) ("A"%byte :: alphabet) = true)
    as A by (vm_compute; reflexivity).
  rewrite forallb_forall in A.
  apply negb_true_iff, A.
  destruct (nth_in_or_default (Z.to_nat i) alphabet "A"%byte) as [H | ->].
  - now right.
  - now left.
Qed.

Lemma dec_pad : dec pad = None.
Proof. reflexivity. Qed.

(** Induction three bytes at a time. *)
Lemma triples_ind (P : bytes -> Prop) :
  P [] ->
  (forall a, P [a]) ->
  (forall a b, P [a; b]) ->
  (forall a b c l, P l -> P (a :: b :: c :: l)) ->
  forall l, P l.
Proof.
  intros H0 H1 H2 H3.
  assert (forall l, P l /\ (forall a, P (a :: l))
                    /\ (forall a b, P (a :: b :: l))) as A.
  { induction l as [|x l (IH0 & IH1 & IH2)].
    - repeat split; auto.
    - repeat split; auto. }
  intros l. apply A.
Qed.

Lemma EncodeToString_plain src :
  strip_newlines (EncodeToString src) = EncodeToString src.
Proof.
  induction src as [| a | a b | a b c l IH] using triples_ind;
    cbn [EncodeToString strip_newlines filter];
    rewrite ?enc_plain; cbn [negb]; try reflexivity.
  unfold strip_newlines in IH. now rewrite IH.
Qed.

Lemma decode_quanta_cons c0 c1 c2 c3 rest :
  decode_quanta (c0 :: c1 :: c2 :: c3 :: rest) =
  match dec c0, dec c1 with
  | Some i0, Some i1 =>
      match dec c2, dec c3 with
      | Some i2, Some i3 =>
          let v := i0 * 262144 + i1 * 4096 + i2 * 64 + i3 in
          match decode_quanta rest with
          | Some out =>
              Some (byte_of_Z (v / 65536)
                      :: byte_of_Z ((v / 256) mod 256)
                      :: byte_of_Z (v mod 256) :: out)
          | None => None
          end
      | Some i2, None =>
          if Byte.eqb c3 pad && is_nil rest then
            let v := i0 * 262144 + i1 * 4096 + i2 * 64 in
            Some [byte_of_Z (v / 65536); byte_of_Z ((v / 256) mod 256)]
          else None
      | None, _ =>
          if Byte.eqb c2 pad && Byte.eqb c3 pad && is_nil rest then
            let v := i0 * 262144 + i1 * 4096 in
            Some [byte_of_Z (v / 65536)]
          else None
      end
  | _, _ => None
  end.
Proof. reflexivity. Qed.

Ltac sextets :=
  repeat match goal with
         | |- context [dec (enc ?i)] =>
             rewrite (dec_enc i) by (Z.to_euclidean_division_equations; lia)
         end.

Lemma byte_of_Z_eq z b : z = byte_to_Z b -> byte_of_Z z = b.
Proof. intros ->. apply byte_of_to_Z. Qed.

Ltac byte_eq :=
  apply byte_of_Z_eq; Z.to_euclidean_division_equations; lia.

Lemma decode_encode_quanta src :
  decode_quanta (EncodeToString src) = Some src.
Proof.
  induction src as [| a | a b | a b c l IH] using triples_ind.
  - reflexivity.
  - pose proof (byte_to_Z_range a).
    cbn [EncodeToString]. rewrite decode_quanta_cons. cbv zeta.
    sextets. rewrite dec_pad.
    change (Byte.eqb pad pad) with true. cbn [andb is_nil].
    apply f_equal. apply f_equal2; [byte_eq | reflexivity].
  - pose proof (byte_to_Z_range a). pose proof (byte_to_Z_range b).
    cbn [EncodeToString]. rewrite decode_quanta_cons. cbv zeta.
    sextets. rewrite dec_pad.
    change (Byte.eqb pad pad) with true. cbn [andb is_nil].
    apply f_equal. apply f_equal2; [byte_eq |].
    apply f_equal2; [byte_eq | reflexivity].
  - pose proof (byte_to_Z_range a). pose proof (byte_to_Z_range b).
    pose proof (byte_to_Z_range c).
    cbn [EncodeToString]. rewrite decode_quanta_cons. cbv zeta.
    sextets. rewrite IH.
    apply f_equal. apply f_equal2; [byte_eq |].
    apply f_equal2; [byte_eq |].
    apply f_equal2; [byte_eq | reflexivity].
Qed.

Theorem DecodeString_EncodeToString src :
  DecodeString (EncodeToString src) = Some src.
Proof.
  unfold DecodeString.
  now rewrite EncodeToString_plain, decode_encode_quanta.
Qed.

Lemma EncodeToString_nonempty src :
  src <> [] -> EncodeToString src <> [].
Proof.
  destruct src as [| a [| b [| c l]]]; intros H; try discriminate.
  contradiction.
Qed.

End Base64Facts.

(** ** JSON documents of a cursor *)

Module JsonFacts.
Import Json Strconv StrconvFacts.

(** An unsigned decimal literal without leading zero. *)
Definition canon_nat (l : bytes) : Prop :=
  l = lit "0"
  \/ exists m ds, l = digit_byte m :: ds /\ 1 <= m <= 9
                  /\ forallb is_digit ds = true.

Definition int_literal (l : bytes) : Prop :=
  canon_nat l \/ exists l', l = "-"%byte :: l' /\ canon_nat l'.

(** What follows a member value in the documents [Encode] writes. *)
Definition terminator (c : byte) : Prop := c = "}"%byte \/ c = ","%byte.

Lemma canon_nat_FormatUint n :
  0 <= n <= Int.max_uint64 -> canon_nat (format_digits 20 n []).
Proof.
  intros H. destruct (Z.eq_dec n 0) as [-> | Hn].
  - now left.
  - right. pose proof pow_10_20.
    destruct (format_digits_shape 20 n) as (m & ds & E & Hm & Hds); [lia |].
    now exists m, ds.
Qed.

Lemma int_literal_FormatUint n :
  Int.is_uint64 n -> int_literal (FormatUint n).
Proof. intros H. left. now apply canon_nat_FormatUint. Qed.

Lemma int_literal_FormatInt n :
  Int.is_int64 n -> int_literal (FormatInt n).
Proof.
  intros [H0 H1]. unfold FormatInt, Int.min_int64, Int.max_int64 in *.
  destruct (Z.ltb_spec n 0).
  - right. eexists; split; [reflexivity |].
    apply canon_nat_FormatUint. unfold Int.max_uint64. lia.
  - left. apply canon_nat_FormatUint. unfold Int.max_uint64. lia.
Qed.

Lemma span_digits_stop ds c rest :
  forallb is_digit ds = true -> is_digit c = false ->
  span_digits (ds ++ c :: rest) = (ds, c :: rest).
Proof.
  intros Hds Hc. induction ds as [|d ds IH]; simpl in *.
  - now rewrite Hc.
  - apply andb_true_iff in Hds as [Hd Hds]. now rewrite Hd, IH.
Qed.

Lemma scan_number_nat l c rest :
  canon_nat l -> terminator c ->
  scan_number (l ++ c :: rest) = Some (l, c :: rest)
  /\ scan_number ("-"%byte :: l ++ c :: rest)
     = Some ("-"%byte :: l, c :: rest).
Proof.
  intros [-> | (m & ds & -> & Hm & Hds)] Hc.
  - destruct Hc as [-> | ->]; split; reflexivity.
  - assert (is_digit c = false) as Hnd by (destruct Hc as [-> | ->]; reflexivity).
    assert (m = 1 \/ m = 2 \/ m = 3 \/ m = 4 \/ m = 5 \/ m = 6 \/ m = 7
            \/ m = 8 \/ m = 9) as Cases by lia.
    repeat (destruct Cases as [-> | Cases];
            [ unfold scan_number; simpl;
              rewrite (span_digits_stop ds c rest Hds Hnd);
              destruct Hc as [-> | ->]; simpl; rewrite app_nil_r;
              split; reflexivity |]).
    subst m.
    unfold scan_number; simpl;
      rewrite (span_digits_stop ds c rest Hds Hnd);
      destruct Hc as [-> | ->]; simpl; rewrite app_nil_r; split; reflexivity.
Qed.

Lemma scan_number_literal l c rest :
  int_literal l -> terminator c ->
  scan_number (l ++ c :: rest) = Some (l, c :: rest).
Proof.
  intros [H | (l' & -> & H)] Hc.
  - now apply scan_number_nat.
  - now apply (scan_number_nat l' c rest H Hc).
Qed.

(** The first byte of an integer literal starts no other kind of value. *)
Definition number_start (b : byte) : bool :=
  is_digit b || Byte.eqb b "-"%byte.

Lemma int_literal_start l :
  int_literal l -> exists b t, l = b :: t /\ number_start b = true.
Proof.
  intros [[-> | (m & ds & -> & Hm & _)] | (l' & -> & _)].
  - now exists "0"%byte, [].
  - exists (digit_byte m), ds. split; [reflexivity |].
    unfold number_start. now rewrite is_digit_digit_byte by lia.
  - now exists "-"%byte, l'.
Qed.

Lemma parse_value_number f d b t :
  number_start b = true ->
  parse_value (S f) d (b :: t) =
  match scan_number (b :: t) with
  | Some (l, t') => Some (JNum l, t')
  | None => None
  end.
Proof.
  intros H. destruct b; try discriminate H; reflexivity.
Qed.

Lemma parse_value_literal f d l c rest :
  int_literal l -> terminator c ->
  parse_value (S f) d (l ++ c :: rest) = Some (JNum l, c :: rest).
Proof.
  intros Hl Hc.
  pose proof (scan_number_literal l c rest Hl Hc) as E.
  destruct (int_literal_start l Hl) as (b & t & -> & Hb).
  rewrite <- app_comm_cons in *.
  now rewrite (parse_value_number f d b _ Hb), E.
Qed.

End JsonFacts.

(** ** The cursor codec *)

Module PaginationFacts.
Import Json Strconv StrconvFacts JsonFacts Pagination.

(** Cursor values as the struct can hold them. *)
Definition wf_cursor (c : Cursor) : Prop :=
  Int.is_uint64 (ActorID c) /\ Int.is_int64 (UpdatedUnix c).

Lemma parse_value_object f d t :
  parse_value (S f) d ("{"%byte :: x22 :: t) =
  if maxNestingDepth <=? d then None
  else match parse_members f (d + 1) (x22 :: t) with
       | Some (ms, t') => Some (JObj ms, t')
       | None => None
       end.
Proof. reflexivity. Qed.

Lemma parse_members_actor_id f d t :
  parse_members (S f) d (q "actor_id" ++ ":"%byte :: t) =
  match parse_value f d t with
  | Some (v, t3) =>
      match skip_ws t3 with
      | ","%byte :: t4 =>
          match parse_members f d t4 with
          | Some (ms, t5) => Some ((lit "actor_id", v) :: ms, t5)
          | None => None
          end
      | "}"%byte :: t4 => Some ([(lit "actor_id", v)], t4)
      | _ => None
      end
  | None => None
  end.
Proof. reflexivity. Qed.

Lemma parse_members_updated_unix f d t :
  parse_members (S f) d (q "updated_unix" ++ ":"%byte :: t) =
  match parse_value f d t with
  | Some (v, t3) =>
      match skip_ws t3 with
      | ","%byte :: t4 =>
          match parse_members f d t4 with
          | Some (ms, t5) => Some ((lit "updated_unix", v) :: ms, t5)
          | None => None
          end
      | "}"%byte :: t4 => Some ([(lit "updated_unix", v)], t4)
      | _ => None
      end
  | None => None
  end.
Proof. reflexivity. Qed.

Lemma skip_ws_comma t : skip_ws (","%byte :: t) = ","%byte :: t.
Proof. reflexivity. Qed.

Lemma skip_ws_brace t : skip_ws ("}"%byte :: t) = "}"%byte :: t.
Proof. reflexivity. Qed.

(** What follows the first member's value. *)
Definition tail_of (c : Cursor) : bytes :=
  if UpdatedUnix c =? 0 then lit "}"
  else ","%byte :: q "updated_unix" ++ ":"%byte
         :: (FormatInt (UpdatedUnix c) ++ lit "}").

Lemma json_Marshal_shape c :
  json_Marshal c =
  "{"%byte :: q "actor_id" ++ ":"%byte :: (FormatUint (ActorID c) ++ tail_of c).
Proof.
  unfold json_Marshal, tail_of.
  destruct (UpdatedUnix c =? 0); reflexivity.
Qed.

Definition members_of (c : Cursor) : list (bytes * json) :=
  (lit "actor_id", JNum (FormatUint (ActorID c)))
    :: (if UpdatedUnix c =? 0 then []
        else [(lit "updated_unix", JNum (FormatInt (UpdatedUnix c)))]).

(** Five levels of calls read the whole document. *)
Lemma parse_value_json_Marshal c f :
  wf_cursor c ->
  parse_value (S (S (S (S (S f))))) 0 (json_Marshal c)
  = Some (JObj (members_of c), []).
Proof.
  intros [Ha Hu].
  pose proof (int_literal_FormatUint _ Ha) as La.
  pose proof (int_literal_FormatInt _ Hu) as Lu.
  rewrite json_Marshal_shape. unfold tail_of, members_of.
  change ("{"%byte :: q "actor_id" ++ ?x)
    with ("{"%byte :: x22 :: (lit "actor_id" ++ x22 :: x)).
  rewrite parse_value_object.
  change (maxNestingDepth <=? 0) with false. cbv iota.
  change (x22 :: lit "actor_id" ++ x22 :: ?x) with (q "actor_id" ++ x).
  rewrite parse_members_actor_id.
  change (lit "}") with ["}"%byte].
  destruct (UpdatedUnix c =? 0).
  - rewrite parse_value_literal by (auto; now left).
    now rewrite skip_ws_brace.
  - rewrite parse_value_literal by (auto; now right).
    rewrite skip_ws_comma, parse_members_updated_unix.
    rewrite parse_value_literal by (auto; now left).
    now rewrite skip_ws_brace.
Qed.

Lemma json_Marshal_length c :
  exists f, List.length (json_Marshal c) = S (S (S (S f))).
Proof.
  rewrite json_Marshal_shape.
  change ("{"%byte :: q "actor_id" ++ ?x)
    with ("{"%byte :: x22 :: "a"%byte :: "c"%byte
            :: (lit "tor_id" ++ x22 :: x)).
  cbn [List.length]. eauto.
Qed.

(** The document of a cursor parses back to its one or two members. *)
Lemma parse_json_Marshal c :
  wf_cursor c -> Json.parse (json_Marshal c) = Some (JObj (members_of c)).
Proof.
  intros Hc. unfold Json.parse.
  destruct (json_Marshal_length c) as [f ->].
  now rewrite parse_value_json_Marshal.
Qed.

Lemma json_Unmarshal_Marshal c :
  wf_cursor c -> json_Unmarshal (json_Marshal c) = Some c.
Proof.
  intros Hc. unfold json_Unmarshal. rewrite parse_json_Marshal by assumption.
  unfold members_of.
  destruct Hc as [Ha Hu]. destruct c as [a u]. cbn [ActorID UpdatedUnix] in *.
  cbn [store_members].
  change (store_member zero (lit "actor_id", JNum (FormatUint a)))
    with (match ParseUint (FormatUint a) with
          | Some n => Some (mkCursor n 0)
          | None => None
          end).
  rewrite ParseUint_FormatUint by assumption.
  destruct (Z.eqb_spec u 0) as [-> | Hu0]; [reflexivity |].
  cbn [store_members].
  change (store_member (mkCursor a 0) (lit "updated_unix", JNum (FormatInt u)))
    with (match ParseInt (FormatInt u) with
          | Some n => Some (mkCursor a n)
          | None => None
          end).
  now rewrite ParseInt_FormatInt.
Qed.

Lemma json_Marshal_nonempty c : json_Marshal c <> [].
Proof. discriminate. Qed.


Lemma Decode_Encode_token c :
  wf_cursor c ->
  Decode (Base64.EncodeToString (json_Marshal c)) = Ok c.
Proof.
  intros Hc. unfold Decode.
  pose proof (Base64Facts.EncodeToString_nonempty _ (json_Marshal_nonempty c)).
  destruct (Base64.EncodeToString (json_Marshal c)) eqn:E; [contradiction |].
  rewrite <- E.
  now rewrite Base64Facts.DecodeString_EncodeToString, json_Unmarshal_Marshal.
Qed.

End PaginationFacts.

(** ** Queries: filtering, ordering, limiting *)

Module GormFacts.
Import Db Gorm.

Section Ordering.
Variable before : Decision -> Decision -> bool.
Hypothesis before_total : forall x y, before x y = true \/ before y x = true.
Hypothesis before_trans :
  forall x y z, before x y = true -> before y z = true -> before x z = true.

Let le (x y : Decision) : Prop := before x y = true.

Lemma insert_by_perm x l : Permutation (insert_by before x l) (x :: l).
Proof.
  induction l as [|y l IH]; simpl.
  - apply Permutation_refl.
  - destruct (before x y).
    + apply Permutation_refl.
    + apply perm_trans with (y :: x :: l);
        [now apply perm_skip | apply perm_swap].
Qed.

Lemma sort_by_perm l : Permutation (sort_by before l) l.
Proof.
  induction l as [|x l IH]; simpl.
  - apply perm_nil.
  - apply perm_trans with (x :: sort_by before l).
    + apply insert_by_perm.
    + now apply perm_skip.
Qed.

Lemma insert_by_sorted x l :
  StronglySorted le l -> StronglySorted le (insert_by before x l).
Proof.
  induction 1 as [|y l Hs IH Hy]; simpl.
  - constructor; [constructor | constructor].
  - destruct (before x y) eqn:E.
    + constructor.
      * now constructor.
      * constructor; [exact E |].
        rewrite Forall_forall in *. intros z Hz.
        apply before_trans with y; [exact E | now apply Hy].
    + constructor; [exact IH |].
      rewrite Forall_forall in *. intros z Hz.
      apply (Permutation_in _ (insert_by_perm x l)) in Hz.
      destruct Hz as [<- | Hz]; [| now apply Hy].
      destruct (before_total x y) as [C | C]; [congruence | exact C].
Qed.

Lemma sort_by_sorted l : StronglySorted le (sort_by before l).
Proof.
  induction l as [|x l IH]; simpl.
  - constructor.
  - now apply insert_by_sorted.
Qed.

Lemma filter_insert_by p x l :
  StronglySorted le l ->
  filter p (insert_by before x l) =
  if p x then insert_by before x (filter p l) else filter p l.
Proof.
  induction 1 as [|y l Hs IH Hy]; simpl.
  - now destruct (p x).
  - destruct (before x y) eqn:E; simpl.
    + destruct (p x) eqn:Px, (p y) eqn:Py; simpl; rewrite ?E; try reflexivity.
      (* [y] is dropped: [x] still goes in front of what is left *)
      destruct (filter p l) as [|z r] eqn:F; [reflexivity |].
      simpl.
      assert (In z l) as Hz.
      { apply (proj1 (filter_In p z l)). rewrite F. now left. }
      rewrite Forall_forall in Hy.
      now rewrite (before_trans x y z E (Hy z Hz)).
    + rewrite IH. destruct (p x), (p y); simpl; rewrite ?E; reflexivity.
Qed.

(** A [WHERE] clause can be applied before or after [ORDER BY]. *)
Lemma filter_sort_by p l :
  filter p (sort_by before l) = sort_by before (filter p l).
Proof.
  induction l as [|x l IH]; simpl.
  - reflexivity.
  - rewrite filter_insert_by by apply sort_by_sorted.
    rewrite IH. now destruct (p x).
Qed.

End Ordering.

Lemma sort_by_In before x l : In x (sort_by before l) <-> In x l.
Proof.
  split; intros H.
  - exact (Permutation_in _ (sort_by_perm before l) H).
  - exact (Permutation_in _ (Permutation_sym (sort_by_perm before l)) H).
Qed.

Lemma sort_by_length before l :
  List.length (sort_by before l) = List.length l.
Proof. apply Permutation_length, sort_by_perm. Qed.

Lemma holds_all_snoc ps p d :
  holds_all (ps ++ [p]) d = holds_all ps d && p d.
Proof.
  unfold holds_all. rewrite forallb_app. simpl. now rewrite andb_true_r.
Qed.

Lemma filter_andb (f g : Decision -> bool) l :
  filter (fun d => f d && g d) l = filter g (filter f l).
Proof.
  induction l as [|x l IH]; simpl; [reflexivity |].
  destruct (f x); simpl; [destruct (g x) |]; now rewrite IH.
Qed.

Lemma take_length k l :
  0 <= k -> Z.of_nat (List.length (take k l)) = Z.min k (Z.of_nat (List.length l)).
Proof.
  intros Hk. unfold take.
  destruct (Z.leb_spec (Z.of_nat (List.length l)) k).
  - lia.
  - rewrite length_firstn. lia.
Qed.

Lemma take_firstn k l : 0 <= k -> take k l = firstn (Z.to_nat k) l.
Proof.
  intros Hk. unfold take.
  destruct (Z.leb_spec (Z.of_nat (List.length l)) k); [| reflexivity].
  symmetry. apply firstn_all2. lia.
Qed.

Lemma take_incl k l x : In x (take k l) -> In x l.
Proof.
  unfold take. destruct (_ <=? _); [auto |].
  intros H. rewrite <- (firstn_skipn (Z.to_nat k) l).
  apply in_or_app. now left.
Qed.

Lemma apply_limit_incl n l x : In x (apply_limit n l) -> In x l.
Proof.
  destruct n as [k|]; simpl; [| auto].
  destruct (0 <=? k); [apply take_incl | auto].
Qed.

Lemma matching_In q x :
  In x (matching q) <-> In x (q_rows q) /\ holds_all (q_where q) x = true.
Proof.
  unfold matching, apply_order.
  destruct (q_order q); rewrite ?sort_by_In; apply filter_In.
Qed.

Lemma Find_incl q x : In x (Find q) -> In x (matching q).
Proof. apply apply_limit_incl. Qed.

Lemma Count_length q :
  Count q = Z.of_nat (List.length (matching q)).
Proof.
  unfold Count, matching, apply_order.
  destruct (q_order q); now rewrite ?sort_by_length.
Qed.

End GormFacts.

(** ** The list queries *)

Module RepositoryFacts.
Import Db Gorm Repository GormFacts.

(** Boolean comparisons as arithmetic facts. *)
Ltac zbool :=
  repeat match goal with
         | H : _ && _ = true |- _ => apply andb_true_iff in H; destruct H
         | H : _ || _ = true |- _ => apply orb_true_iff in H
         | H : negb _ = true |- _ => apply negb_true_iff in H
         | H : (_ <? _) = true |- _ => apply Z.ltb_lt in H
         | H : (_ <? _) = false |- _ => apply Z.ltb_ge in H
         | H : (_ <=? _) = true |- _ => apply Z.leb_le in H
         | H : (_ <=? _) = false |- _ => apply Z.leb_gt in H
         | H : (_ =? _) = true |- _ => apply Z.eqb_eq in H
         | H : (_ =? _) = false |- _ => apply Z.eqb_neq in H
         end.

Lemma wrap64_id z : Int.is_int64 z -> Int.wrap64 z = z.
Proof.
  unfold Int.is_int64, Int.wrap64, Int.min_int64, Int.max_int64. intros H.
  rewrite Z.mod_small; lia.
Qed.

Lemma before_total x y :
  updated_desc_actor_desc x y = true \/ updated_desc_actor_desc y x = true.
Proof.
  unfold updated_desc_actor_desc.
  destruct (Z.ltb_spec (UpdatedAt y) (UpdatedAt x)); [now left |].
  destruct (Z.ltb_spec (UpdatedAt x) (UpdatedAt y)); [now right |].
  assert (UpdatedAt x = UpdatedAt y) as E by lia. rewrite E, Z.eqb_refl. simpl.
  destruct (Z.leb_spec (ActorID y) (ActorID x)); [now left | right].
  apply Z.leb_le. lia.
Qed.

Lemma before_trans x y z :
  updated_desc_actor_desc x y = true -> updated_desc_actor_desc y z = true ->
  updated_desc_actor_desc x z = true.
Proof.
  unfold updated_desc_actor_desc. intros H1 H2.
  apply orb_true_iff in H1, H2. apply orb_true_iff.
  destruct H1 as [H1 | H1], H2 as [H2 | H2]; zbool.
  - left. apply Z.ltb_lt. lia.
  - left. apply Z.ltb_lt. lia.
  - left. apply Z.ltb_lt. lia.
  - right. apply andb_true_iff. split; [apply Z.eqb_eq | apply Z.leb_le]; lia.
Qed.

(** [x] is listed strictly before [y]. *)
Definition strictly_before (x y : Decision) : Prop :=
  UpdatedAt y < UpdatedAt x
  \/ (UpdatedAt x = UpdatedAt y /\ ActorID y < ActorID x).

Lemma after_cursor_iff x d :
  after_cursor (time_UnixMilli (UnixMilli (UpdatedAt x))) (ActorID x) d = true
  <-> strictly_before x d.
Proof.
  unfold after_cursor, strictly_before, time_UnixMilli, UnixMilli.
  rewrite orb_true_iff, andb_true_iff, Z.ltb_lt, Z.eqb_eq, Z.ltb_lt.
  intuition lia.
Qed.

(** The position a returned row leaves in the token. *)
Definition cursor_of (d : Decision) : Pagination.Cursor :=
  Pagination.mkCursor (ActorID d) (UnixMilli (UpdatedAt d)).

Definition token_of (d : Decision) : bytes :=
  Base64.EncodeToString (Pagination.json_Marshal (cursor_of d)).

(** Queries ordered the way both list queries are. *)
Definition ordered (q : Query) : Prop :=
  q_order q = Some updated_desc_actor_desc.

Lemma matching_Where p q :
  ordered q -> matching (Where p q) = filter p (matching q).
Proof.
  unfold ordered, matching. intros E. cbn [q_order q_where q_rows Where].
  rewrite E. cbn [apply_order].
  rewrite (filter_sort_by _ before_total before_trans).
  f_equal. rewrite <- filter_andb. apply filter_ext. intros d.
  apply holds_all_snoc.
Qed.

Lemma apply_cursor_order c q : q_order (apply_cursor c q) = q_order q.
Proof. unfold apply_cursor. now destruct (_ && _). Qed.

Lemma apply_cursor_limit c q : q_limit (apply_cursor c q) = q_limit q.
Proof. unfold apply_cursor. now destruct (_ && _). Qed.

Lemma apply_cursor_rows c q : q_rows (apply_cursor c q) = q_rows q.
Proof. unfold apply_cursor. now destruct (_ && _). Qed.

(** A cursor with a zero actor or a non-positive time filters nothing. *)
Lemma apply_cursor_ignored c q :
  Pagination.ActorID c <= 0 \/ Pagination.UpdatedUnix c <= 0 ->
  apply_cursor c q = q.
Proof.
  intros H. unfold apply_cursor.
  destruct (Z.ltb_spec 0 (Pagination.ActorID c));
    destruct (Z.ltb_spec 0 (Pagination.UpdatedUnix c)); simpl; try reflexivity.
  lia.
Qed.

Lemma apply_cursor_zero q : apply_cursor Pagination.zero q = q.
Proof. reflexivity. Qed.

Lemma matching_apply_cursor_of x q :
  ordered q -> 0 < ActorID x -> 0 < UpdatedAt x ->
  matching (apply_cursor (cursor_of x) q)
  = filter (after_cursor (time_UnixMilli (UnixMilli (UpdatedAt x))) (ActorID x))
           (matching q).
Proof.
  intros Ho Ha Hu. unfold apply_cursor, cursor_of.
  cbn [Pagination.ActorID Pagination.UpdatedUnix]. unfold UnixMilli at 1.
  destruct (Z.ltb_spec 0 (ActorID x)); [| lia].
  destruct (Z.ltb_spec 0 (UpdatedAt x)); [| lia].
  cbn [andb]. now apply matching_Where.
Qed.

(** *** Fetching [limit + 1] rows *)

Definition fits (n : nat) : Prop := Z.of_nat n <= Int.max_int64.

Lemma Find_limit q L :
  q_limit q = Some (Int.add L 1) ->
  0 < L <= Int.max_int64 -> fits (List.length (matching q)) ->
  Find q = take (L + 1) (matching q).
Proof.
  unfold fits, Find, Int.add. intros -> HL HQ. cbn [apply_limit].
  destruct (Z.eq_dec L Int.max_int64) as [-> | Hne].
  - change (Int.wrap64 (Int.max_int64 + 1)) with Int.min_int64.
    change (0 <=? Int.min_int64) with false. cbv iota.
    unfold take.
    destruct (Z.leb_spec (Z.of_nat (List.length (matching q)))
                         (Int.max_int64 + 1)); [reflexivity | lia].
  - rewrite wrap64_id
      by (unfold Int.is_int64, Int.min_int64, Int.max_int64 in *; lia).
    destruct (Z.leb_spec 0 (L + 1)); [reflexivity | lia].
Qed.

Lemma index_nth l i :
  0 <= i < len l -> index l i = nth_error l (Z.to_nat i).
Proof.
  unfold index. intros H.
  destruct (Z.ltb_spec i 0); [lia |].
  destruct (Z.leb_spec (len l) i); [lia | reflexivity].
Qed.

Lemma nth_error_firstn_lt (l : list Decision) n i :
  (i < n)%nat -> nth_error (firstn n l) i = nth_error l i.
Proof.
  revert n i. induction l as [|x l IH]; intros n i H.
  - now rewrite firstn_nil.
  - destruct n; [lia |]. destruct i; simpl; [reflexivity |].
    apply IH. lia.
Qed.

Section Page.
Variables (q : Query) (c : Pagination.Cursor) (L : Z).
Hypothesis q_lim : q_limit q = Some (Int.add L 1).
Hypothesis L_pos : 0 < L <= Int.max_int64.

Let Q := matching (apply_cursor c q).
Hypothesis Q_fits : fits (List.length Q).

Lemma fetched_rows : Find (apply_cursor c q) = take (L + 1) Q.
Proof.
  apply Find_limit; auto. now rewrite apply_cursor_limit.
Qed.

Lemma fetched_at_most : len (Find (apply_cursor c q)) <= L + 1.
Proof.
  rewrite fetched_rows. unfold len. rewrite take_length by lia. lia.
Qed.

(** No more than [L] rows are left: they are the page, without token. *)
Lemma page_of_last :
  len Q <= L -> page_of q c L = Ok (Q, None).
Proof.
  intros H. unfold page_of. rewrite fetched_rows.
  assert (take (L + 1) Q = Q) as ->.
  { unfold take, len in *.
    destruct (Z.leb_spec (Z.of_nat (List.length Q)) (L + 1)); [reflexivity | lia]. }
  destruct (Z.ltb_spec L (len Q)); [lia | reflexivity].
Qed.

(** More than [L] rows are left: the page is the first [L] of them and the
    token is the position of its last row. *)
Lemma page_of_more :
  L < len Q ->
  exists last,
    nth_error Q (Z.to_nat (L - 1)) = Some last
    /\ page_of q c L = Ok (firstn (Z.to_nat L) Q, Some (token_of last)).
Proof.
  intros H. unfold len in H.
  assert (Z.to_nat (L - 1) < List.length Q)%nat as Hi by lia.
  destruct (nth_error Q (Z.to_nat (L - 1))) as [last|] eqn:E;
    [| apply nth_error_None in E; lia].
  exists last. split; [reflexivity |].
  unfold page_of. rewrite fetched_rows.
  assert (len (take (L + 1) Q) = L + 1) as Hlen.
  { unfold len. rewrite take_length by lia. lia. }
  destruct (Z.ltb_spec L (len (take (L + 1) Q))); [| lia].
  unfold Int.sub.
  rewrite wrap64_id
    by (unfold Int.is_int64, Int.min_int64, Int.max_int64 in *; lia).
  rewrite index_nth by lia.
  rewrite take_firstn by lia.
  rewrite nth_error_firstn_lt by lia. rewrite E.
  unfold slice_to. rewrite take_firstn by lia.
  rewrite firstn_firstn. replace (Nat.min (Z.to_nat L) (Z.to_nat (L + 1)))
    with (Z.to_nat L) by lia.
  reflexivity.
Qed.

End Page.

End RepositoryFacts.

(** ** Tokens that do not decode *)

Module TokenFacts.
Import Base64 Base64Facts Pagination PaginationFacts.







(** The token shown in the README, and the same token cut short. *)
Example Decode_readme_token :
  Decode (lit "eyJhY3Rvcl9pZCI6OSwidXBkYXRlZF91bml4IjoxNzU4NDczMDc3fQ==")
  = Ok (mkCursor 9 1758473077)
  /\ Decode (lit "eyJhY3Rvcl9pZCI6OSwidXBkYXRlZF91bml4IjoxNzU4NDczMDc3fQ=")
     = Err errInvalidToken
  /\ Decode (lit "eyJhY3Rvcl9pZCI6OSwidXBkYXRlZF91bml4IjoxNzU4NDcz")
     = Err errInvalidToken
  /\ Decode (lit "not a token") = Err errInvalidToken.
Proof. repeat split; vm_compute; reflexivity. Qed.

End TokenFacts.

(** ** What the list queries return *)

Module ListQueries.
Import Db Gorm Repository GormFacts RepositoryFacts.

(** The table holds a row [actor -> recipient] with this [liked] value. *)
Definition has_row (t : Table) (actor recipient : Z) (like : bool) : Prop :=
  exists d, In d t /\ ActorID d = actor /\ RecipientID d = recipient
            /\ Liked d = like.

Lemma not_passed_by_iff t R d :
  not_passed_by t R d = true <-> ~ has_row t R (ActorID d) false.
Proof.
  unfold not_passed_by, has_row. rewrite negb_true_iff.
  rewrite <- not_true_iff_false, existsb_exists.
  split; intros H (d2 & Hin & C); apply H; exists d2.
  - destruct C as (A & B & E). split; [exact Hin |].
    rewrite A, B, E, !Z.eqb_refl. reflexivity.
  - split; [exact Hin |]. zbool. repeat split; auto.
Qed.

Lemma not_liked_back_iff t d :
  not_liked_back t d = true <-> ~ has_row t (RecipientID d) (ActorID d) true.
Proof.
  unfold not_liked_back, has_row. rewrite negb_true_iff.
  rewrite <- not_true_iff_false, existsb_exists.
  split; intros H (d2 & Hin & C); apply H; exists d2.
  - destruct C as (A & B & E). split; [exact Hin |].
    rewrite A, B, E, !Z.eqb_refl. reflexivity.
  - split; [exact Hin |]. zbool. repeat split; auto.
Qed.

Lemma apply_cursor_where c q d :
  holds_all (q_where (apply_cursor c q)) d = true ->
  holds_all (q_where q) d = true.
Proof.
  unfold apply_cursor. destruct (_ && _); [| auto].
  cbn [q_where Where]. rewrite holds_all_snoc. intros H.
  now apply andb_true_iff in H.
Qed.

(** Every row of a page is a table row that passes the query's own
    [WHERE] clauses. *)
Lemma page_of_incl q c L rows next d :
  page_of q c L = Ok (rows, next) -> In d rows ->
  In d (q_rows q) /\ holds_all (q_where q) d = true.
Proof.
  unfold page_of. intros H Hin.
  assert (In d (Find (apply_cursor c q))) as F.
  { destruct (L <? len (Find (apply_cursor c q))).
    - destruct (index _ _); [| discriminate].
      injection H as <- _. now apply take_incl in Hin.
    - now injection H as <- _. }
  apply Find_incl, matching_In in F. destruct F as [R W].
  rewrite apply_cursor_rows in R. split; [exact R |].
  now apply apply_cursor_where in W.
Qed.

Lemma GetLikers_page t R tok L c :
  Pagination.Decode (getString tok) = Ok c ->
  GetLikers t R tok L = page_of (likers_query t R L) c L.
Proof. unfold GetLikers. now intros ->. Qed.

Lemma GetNewLikers_page t R tok L c :
  Pagination.Decode (getString tok) = Ok c ->
  GetNewLikers t R tok L = page_of (new_likers_query t R L) c L.
Proof. unfold GetNewLikers. now intros ->. Qed.

Lemma GetLikers_sound t R tok L rows next d :
  GetLikers t R tok L = Ok (rows, next) -> In d rows ->
  In d t /\ RecipientID d = R /\ Liked d = true
  /\ ~ has_row t R (ActorID d) false.
Proof.
  unfold GetLikers. destruct (Pagination.Decode _) as [c | |]; try discriminate.
  intros H Hin. destruct (page_of_incl _ _ _ _ _ _ H Hin) as [Ht W].
  cbn in Ht, W. rewrite !andb_true_r in W.
  apply andb_true_iff in W as [W1 W2]. unfold liked_into in W1.
  apply andb_true_iff in W1 as [W0 W1]. apply Z.eqb_eq in W0.
  repeat split; auto. now apply not_passed_by_iff.
Qed.

Lemma GetNewLikers_sound t R tok L rows next d :
  GetNewLikers t R tok L = Ok (rows, next) -> In d rows ->
  In d t /\ RecipientID d = R /\ Liked d = true
  /\ ~ has_row t R (ActorID d) false
  /\ ~ has_row t R (ActorID d) true.
Proof.
  unfold GetNewLikers. destruct (Pagination.Decode _) as [c | |]; try discriminate.
  intros H Hin. destruct (page_of_incl _ _ _ _ _ _ H Hin) as [Ht W].
  cbn in Ht, W. rewrite !andb_true_r in W.
  apply andb_true_iff in W as [W1 W2].
  apply andb_true_iff in W1 as [W1 W3]. unfold liked_into in W1.
  apply andb_true_iff in W1 as [W0 W1]. apply Z.eqb_eq in W0.
  apply not_liked_back_iff in W3. rewrite W0 in W3.
  repeat split; auto. now apply not_passed_by_iff.
Qed.

Lemma matching_length_le q : (List.length (matching q) <= List.length (q_rows q))%nat.
Proof.
  unfold matching, apply_order.
  destruct (q_order q); rewrite ?sort_by_length; apply filter_length_le.
Qed.

Lemma fits_matching c q :
  fits (List.length (q_rows q)) ->
  fits (List.length (matching (apply_cursor c q))).
Proof.
  unfold fits. intros H.
  pose proof (matching_length_le (apply_cursor c q)) as M.
  rewrite apply_cursor_rows in M. lia.
Qed.

(** A page large enough for the whole table holds every liker the
    recipient has not passed. *)
Lemma GetLikers_complete t R L d :
  In d t -> RecipientID d = R -> Liked d = true ->
  ~ has_row t R (ActorID d) false ->
  len t <= L -> 0 < L <= Int.max_int64 ->
  exists rows, GetLikers t R None L = Ok (rows, None) /\ In d rows.
Proof.
  intros Hin HR Hl Hp Hlen HL.
  exists (matching (likers_query t R L)). split.
  - rewrite (GetLikers_page t R None L Pagination.zero) by reflexivity.
    assert (fits (List.length t)) as Ft by (unfold fits, len in *; lia).
    pose proof (page_of_last (likers_query t R L) Pagination.zero L
                  eq_refl HL (fits_matching _ (likers_query t R L) Ft)) as P.
    rewrite apply_cursor_zero in P. apply P.
    pose proof (matching_length_le (likers_query t R L)) as M.
    cbn [q_rows likers_query Limit Order Where From] in M.
    unfold len in *. lia.
  - apply matching_In. split; [exact Hin |].
    cbn. unfold liked_into. rewrite HR, Z.eqb_refl, Hl.
    apply not_passed_by_iff in Hp. rewrite <- HR at 1. now rewrite HR, Hp.
Qed.

(** C2. Every row either query returns is a row [X -> R] with
    [liked = true] for which no row [R -> X] with [liked = false] exists;
    [GetNewLikers] returns no [X] for which a row [R -> X] with
    [liked = true] exists; [GetLikers] does return such mutual likers: one
    that [R] has not passed is on the page whenever the page is large
    enough for the table. *)
Theorem likers_filtering :
  (forall t R tok L rows next d,
      GetLikers t R tok L = Ok (rows, next) -> In d rows ->
      has_row t (ActorID d) R true /\ ~ has_row t R (ActorID d) false)
  /\ (forall t R tok L rows next d,
         GetNewLikers t R tok L = Ok (rows, next) -> In d rows ->
         has_row t (ActorID d) R true /\ ~ has_row t R (ActorID d) false
         /\ ~ has_row t R (ActorID d) true)
  /\ (forall t R L d,
         In d t -> RecipientID d = R -> Liked d = true ->
         ~ has_row t R (ActorID d) false ->
         has_row t R (ActorID d) true ->
         len t <= L -> 0 < L <= Int.max_int64 ->
         exists rows, GetLikers t R None L = Ok (rows, None) /\ In d rows).
Proof.
  split; [| split].
  - intros t R tok L rows next d H Hin.
    destruct (GetLikers_sound _ _ _ _ _ _ _ H Hin) as (A & B & C & D).
    split; [| exact D]. now exists d.
  - intros t R tok L rows next d H Hin.
    destruct (GetNewLikers_sound _ _ _ _ _ _ _ H Hin) as (A & B & C & D & E).
    split; [| split; assumption]. now exists d.
  - intros t R L d Hin HR Hl Hp _ Hlen HL.
    now apply GetLikers_complete.
Qed.

Definition mutual_table : Table :=
  [mkDecision 1 99 true 1000 1000;
   mkDecision 99 1 true 2000 2000;
   mkDecision 2 99 true 3000 3000].

Lemma likers_filtering_witness :
  exists rows,
    GetLikers mutual_table 99 None 5 = Ok (rows, None)
    /\ In (mkDecision 1 99 true 1000 1000) rows.
Proof.
  apply (proj2 (proj2 likers_filtering)).
  - simpl. auto.
  - reflexivity.
  - reflexivity.
  - intros (d & Hin & A & B & C). simpl in Hin.
    destruct Hin as [<- | [<- | [<- | []]]]; discriminate.
  - exists (mkDecision 99 1 true 2000 2000). simpl. auto.
  - vm_compute. discriminate.
  - unfold Int.max_int64. lia.
Defined.

(** What a page must be, given the rows [Q] the query selects after the
    cursor: the fetch stops at [L + 1] rows, the page is the first [L] rows
    of [Q], a token is returned exactly when [Q] has an [(L+1)]-th row, and
    the token is the position of the last row of the page. *)
Definition page_contract (q : Query) (c : Pagination.Cursor) (L : Z)
           (r : result (list Decision * option bytes)) : Prop :=
  let Q := matching (apply_cursor c q) in
  len (Find (apply_cursor c q)) <= L + 1
  /\ exists rows next,
      r = Ok (rows, next)
      /\ rows = firstn (Z.to_nat L) Q
      /\ len rows <= L
      /\ (next <> None <-> L + 1 <= len Q)
      /\ (len Q < L + 1 -> next = None)
      /\ (forall tk, next = Some tk ->
            exists init last,
              rows = init ++ [last]
              /\ Pagination.Encode
                   (Pagination.mkCursor (ActorID last) (UnixMilli (UpdatedAt last)))
                 = Ok tk).

Lemma firstn_snoc (l : list Decision) n x :
  nth_error l n = Some x -> firstn (S n) l = firstn n l ++ [x].
Proof.
  revert n. induction l as [|y l IH]; intros [|n] H; try discriminate.
  - now injection H as ->.
  - simpl in *. f_equal. now apply IH.
Qed.

Lemma page_of_contract q c L :
  q_limit q = Some (Int.add L 1) -> 0 < L <= Int.max_int64 ->
  fits (List.length (q_rows q)) ->
  page_contract q c L (page_of q c L).
Proof.
  intros Hlim HL Hfit. unfold page_contract.
  pose proof (fits_matching c q Hfit) as FQ.
  split; [now apply fetched_at_most |].
  destruct (Z.le_gt_cases (len (matching (apply_cursor c q))) L) as [Hle | Hgt].
  - exists (matching (apply_cursor c q)), None.
    split; [now apply page_of_last |].
    split; [symmetry; apply firstn_all2; unfold len in *; lia |].
    split; [exact Hle |].
    split; [split; [congruence | lia] |].
    split; [reflexivity | discriminate].
  - destruct (page_of_more q c L Hlim HL FQ) as (last & Hn & P); [lia |].
    exists (firstn (Z.to_nat L) (matching (apply_cursor c q))), (Some (token_of last)).
    split; [exact P |]. split; [reflexivity |].
    split; [unfold len; rewrite length_firstn; lia |].
    split; [split; [lia | discriminate] |].
    split; [lia |].
    intros tk E. injection E as <-.
    exists (firstn (Z.to_nat (L - 1)) (matching (apply_cursor c q))), last.
    split; [| reflexivity].
    replace (Z.to_nat L) with (S (Z.to_nat (L - 1))) by lia.
    now apply firstn_snoc.
Qed.

(** C4. For a page size [L > 0] both list queries fetch at most [L + 1]
    rows, return at most [L], return a next-page token exactly when an
    [(L+1)]-th selected row exists, and the token encodes the actor and the
    update time in milliseconds of the last row returned. *)
Theorem page_size_and_token t R tok c L :
  Pagination.Decode (getString tok) = Ok c ->
  0 < L <= Int.max_int64 ->
  fits (List.length t) ->
  page_contract (likers_query t R L) c L (GetLikers t R tok L)
  /\ page_contract (new_likers_query t R L) c L (GetNewLikers t R tok L).
Proof.
  intros Hd HL Hfit.
  rewrite (GetLikers_page _ _ _ _ _ Hd), (GetNewLikers_page _ _ _ _ _ Hd).
  split; apply page_of_contract; auto.
Qed.

Lemma page_size_and_token_witness :
  page_contract (likers_query mutual_table 99 1) Pagination.zero 1
                (GetLikers mutual_table 99 None 1)
  /\ page_contract (new_likers_query mutual_table 99 1) Pagination.zero 1
                   (GetNewLikers mutual_table 99 None 1).
Proof.
  apply (page_size_and_token mutual_table 99 None Pagination.zero 1).
  - reflexivity.
  - unfold Int.max_int64. lia.
  - unfold fits, Int.max_int64. simpl. lia.
Defined.

(** C10. A token that decodes to a cursor with actor 0 or a non-positive
    time is treated like no token at all: both list queries return the page
    they return without a token. *)
Theorem ignored_cursor_restarts t R tok c L :
  tok <> [] ->
  Pagination.Decode tok = Ok c ->
  Pagination.ActorID c = 0 \/ Pagination.UpdatedUnix c <= 0 ->
  GetLikers t R (Some tok) L = GetLikers t R None L
  /\ GetNewLikers t R (Some tok) L = GetNewLikers t R None L.
Proof.
  intros _ Hd Hc.
  rewrite (GetLikers_page t R (Some tok) L c Hd).
  rewrite (GetNewLikers_page t R (Some tok) L c Hd).
  rewrite (GetLikers_page t R None L Pagination.zero eq_refl).
  rewrite (GetNewLikers_page t R None L Pagination.zero eq_refl).
  unfold page_of. rewrite !apply_cursor_zero.
  rewrite !apply_cursor_ignored by lia. split; reflexivity.
Qed.

Lemma ignored_cursor_restarts_witness :
  GetLikers mutual_table 99
            (Some (lit "eyJhY3Rvcl9pZCI6MCwidXBkYXRlZF91bml4IjoyMDAwfQ==")) 1
  = GetLikers mutual_table 99 None 1
  /\ GetNewLikers mutual_table 99
                  (Some (lit "eyJhY3Rvcl9pZCI6MCwidXBkYXRlZF91bml4IjoyMDAwfQ==")) 1
     = GetNewLikers mutual_table 99 None 1.
Proof.
  apply (ignored_cursor_restarts mutual_table 99
           (lit "eyJhY3Rvcl9pZCI6MCwidXBkYXRlZF91bml4IjoyMDAwfQ==")
           (Pagination.mkCursor 0 2000) 1).
  - discriminate.
  - vm_compute. reflexivity.
  - left. reflexivity.
Defined.

End ListQueries.

(** ** The upsert *)

Module UpsertFacts.
Import Db Gorm Repository GormFacts RepositoryFacts ListQueries.

Lemma same_pk_iff d e : same_pk d e = true <-> pk d = pk e.
Proof.
  unfold same_pk, pk. rewrite andb_true_iff, !Z.eqb_eq.
  split; [intros [-> ->]; reflexivity | intros E; now injection E].
Qed.

Lemma same_pk_false d e : same_pk d e = false <-> pk d <> pk e.
Proof.
  rewrite <- same_pk_iff. now destruct (same_pk d e).
Qed.

(** Column lists that leave the key alone. *)
Definition keeps_pk (cols : list Column) : Prop :=
  forall c, In c cols -> c <> actor_id /\ c <> recipient_id.

Lemma assign_all_pk cols e : forall r,
  keeps_pk cols -> pk (assign_all cols e r) = pk r.
Proof.
  unfold assign_all. induction cols as [|c cols IH]; intros r K; simpl.
  - reflexivity.
  - rewrite IH by (intros c' H; apply K; now right).
    destruct (K c (or_introl eq_refl)) as [N1 N2].
    destruct c; try reflexivity; contradiction.
Qed.

Lemma keeps_pk_liked : keeps_pk [liked].
Proof. intros c [<- | []]; split; discriminate. Qed.

Lemma keeps_pk_liked_updated : keeps_pk [liked; updated_at].
Proof. intros c [<- | [<- | []]]; split; discriminate. Qed.

(** On a key that is not in the table the upsert appends the new row. *)
Lemma CreateOnConflict_absent cols new t :
  (forall d, In d t -> pk d <> pk new) ->
  CreateOnConflict cols new t = t ++ [new].
Proof.
  induction t as [|row t IH]; intros H; simpl.
  - reflexivity.
  - destruct (same_pk row new) eqn:E.
    + apply same_pk_iff in E. now destruct (H row (or_introl eq_refl)).
    + rewrite IH; [reflexivity |]. intros d Hd. apply H. now right.
Qed.

(** On a key that is in the table the upsert writes the listed columns of
    that row and appends nothing. *)
Lemma CreateOnConflict_present cols new t :
  (exists d, In d t /\ pk d = pk new) ->
  exists t1 row t2,
    t = t1 ++ row :: t2 /\ pk row = pk new
    /\ (forall d, In d t1 -> pk d <> pk new)
    /\ CreateOnConflict cols new t = t1 ++ assign_all cols new row :: t2.
Proof.
  induction t as [|r t IH]; intros (d & Hin & Hpk).
  - destruct Hin.
  - simpl. destruct (same_pk r new) eqn:E.
    + exists [], r, t. apply same_pk_iff in E. repeat split; auto.
    + apply same_pk_false in E.
      destruct Hin as [-> | Hin]; [contradiction |].
      destruct IH as (t1 & row & t2 & -> & P & N & C); [now exists d |].
      exists (r :: t1), row, t2. rewrite C. repeat split; auto.
      intros d' [<- | Hd']; auto.
Qed.

Lemma CreateOnConflict_keys cols new t :
  keeps_pk cols ->
  map pk (CreateOnConflict cols new t) =
  if existsb (fun d => same_pk d new) t then map pk t
  else map pk t ++ [pk new].
Proof.
  intros K. induction t as [|r t IH]; simpl.
  - reflexivity.
  - destruct (same_pk r new) eqn:E; simpl.
    + now rewrite assign_all_pk.
    + rewrite IH. now destruct (existsb _ t).
Qed.

(** The primary key stays unique. *)
Lemma CreateOnConflict_unique cols new t :
  keeps_pk cols -> pk_unique t -> pk_unique (CreateOnConflict cols new t).
Proof.
  unfold pk_unique. intros K U. rewrite CreateOnConflict_keys by assumption.
  destruct (existsb (fun d => same_pk d new) t) eqn:E; [exact U |].
  apply NoDup_app; [exact U | repeat constructor; intros [] |].
  intros k Hk [<- | []]. apply in_map_iff in Hk as (d & Hpk & Hd).
  assert (existsb (fun d => same_pk d new) t = true) as C.
  { apply existsb_exists. exists d. split; [exact Hd |]. now apply same_pk_iff. }
  congruence.
Qed.

(** Rows under other keys are not touched. *)
Lemma CreateOnConflict_others cols new t d :
  keeps_pk cols -> pk d <> pk new ->
  (In d (CreateOnConflict cols new t) <-> In d t).
Proof.
  intros K N. induction t as [|r t IH]; simpl.
  - split; [intros [<- | []]; contradiction | intros []].
  - destruct (same_pk r new) eqn:E; simpl.
    + apply same_pk_iff in E.
      split; (intros [<- | H]; [exfalso | now right]).
      * now rewrite assign_all_pk in N.
      * contradiction.
    + now rewrite IH.
Qed.

Lemma pk_unique_In t d e :
  pk_unique t -> In d t -> In e t -> pk d = pk e -> d = e.
Proof.
  unfold pk_unique. induction t as [|r t IH]; intros U Hd He E; [destruct Hd |].
  simpl in U. apply NoDup_cons_iff in U as [Hn U].
  destruct Hd as [-> | Hd], He as [-> | He]; auto.
  - exfalso. apply Hn. rewrite E. now apply in_map.
  - exfalso. apply Hn. rewrite <- E. now apply in_map.
Qed.

Lemma has_row_upsert now t a b like x y l :
  (x, y) <> (a, b) ->
  has_row (fst (CreateOrUpdateDecision now t a b like)) x y l
  <-> has_row t x y l.
Proof.
  intros N. unfold has_row, CreateOrUpdateDecision. cbn [fst].
  split; intros (d & Hin & A & B & C); exists d; (split; [| auto]).
  - apply CreateOnConflict_others in Hin; auto using keeps_pk_liked.
    unfold pk. cbn. congruence.
  - apply CreateOnConflict_others; auto using keeps_pk_liked.
    unfold pk. cbn. congruence.
Qed.

Lemma HasLiked_iff t a b : HasLiked t a b = true <-> has_row t a b true.
Proof.
  unfold HasLiked, has_row, Count. cbn [q_where q_rows Where From app].
  rewrite Z.ltb_lt. split.
  - intros H.
    destruct (filter _ t) as [|d r] eqn:F; [simpl in H; lia |].
    assert (In d (filter (holds_all [fun d => (ActorID d =? a)
                                      && (RecipientID d =? b) && Liked d]) t))
      as Hd by (rewrite F; now left).
    apply filter_In in Hd as [Hin W]. cbn in W. rewrite andb_true_r in W.
    zbool. exists d. auto.
  - intros (d & Hin & A & B & C).
    assert (In d (filter (holds_all [fun d => (ActorID d =? a)
                                      && (RecipientID d =? b) && Liked d]) t))
      as Hd.
    { apply filter_In. split; [exact Hin |]. cbn.
      now rewrite A, B, C, !Z.eqb_refl. }
    destruct (filter _ t); [destruct Hd | simpl; lia].
Qed.

(** What the upsert the service calls does to the table. *)
Lemma CreateOrUpdateDecision_new now t a b like :
  (forall d, In d t -> pk d <> (a, b)) ->
  CreateOrUpdateDecision now t a b like
  = (t ++ [mkDecision a b like now now], None).
Proof.
  intros H. unfold CreateOrUpdateDecision, stamped.
  now rewrite CreateOnConflict_absent.
Qed.

Lemma CreateOrUpdateDecision_existing now t a b like d :
  pk_unique t -> In d t -> pk d = (a, b) ->
  exists t1 t2,
    t = t1 ++ d :: t2
    /\ CreateOrUpdateDecision now t a b like
       = (t1 ++ mkDecision a b like (CreatedAt d) (UpdatedAt d) :: t2, None).
Proof.
  intros U Hin Hpk. unfold CreateOrUpdateDecision.
  destruct (CreateOnConflict_present [liked] (stamped now a b like) t)
    as (t1 & row & t2 & E & P & N & C); [now exists d |].
  assert (row = d) as ->.
  { apply (pk_unique_In t); auto.
    - rewrite E. apply in_or_app. right. now left.
    - now rewrite P, Hpk. }
  exists t1, t2. split; [exact E |]. rewrite C. f_equal. f_equal. f_equal.
  unfold pk in Hpk. injection Hpk as <- <-. reflexivity.
Qed.

(** Tables the upsert can build from the empty one. *)
Inductive reachable : Table -> Prop :=
| reach_empty : reachable []
| reach_upsert t now a b like :
    reachable t -> reachable (fst (CreateOrUpdateDecision now t a b like)).

Lemma reachable_unique t : reachable t -> pk_unique t.
Proof.
  induction 1 as [| t now a b like R IH].
  - constructor.
  - apply CreateOnConflict_unique; [apply keeps_pk_liked | exact IH].
Qed.

(** C1, at the failing input: user 1 likes user 2 at time 1000 and passes
    at time 2000.  One row is left, with the new [liked] and the old
    [created_at], but [updated_at] still reads 1000; the seed's upsert,
    which also lists [updated_at], moves it to 2000. *)
Theorem upsert_leaves_updated_at :
  fst (CreateOrUpdateDecision 1000 [] 1 2 true)
  = [mkDecision 1 2 true 1000 1000]
  /\ fst (CreateOrUpdateDecision 2000 [mkDecision 1 2 true 1000 1000] 1 2 false)
     = [mkDecision 1 2 false 1000 1000]
  /\ seed_decision 2000 [mkDecision 1 2 true 1000 1000] 1 2 false
     = [mkDecision 1 2 false 1000 2000].
Proof. repeat split; reflexivity. Qed.

(** The same on every table: an existing row keeps its [updated_at]. *)
Lemma upsert_never_bumps now t a b like d :
  pk_unique t -> In d t -> pk d = (a, b) ->
  forall e, In e (fst (CreateOrUpdateDecision now t a b like)) ->
            pk e = (a, b) ->
            Liked e = like /\ CreatedAt e = CreatedAt d
            /\ UpdatedAt e = UpdatedAt d.
Proof.
  intros U Hin Hpk e He Hpe.
  pose proof (CreateOnConflict_unique [liked] (stamped now a b like) t
                keeps_pk_liked U) as U'.
  destruct (CreateOrUpdateDecision_existing now t a b like d U Hin Hpk)
    as (t1 & t2 & E & C).
  unfold CreateOrUpdateDecision in *. injection C as C. cbn [fst] in He.
  assert (e = mkDecision a b like (CreatedAt d) (UpdatedAt d)) as ->.
  { apply (pk_unique_In _ _ _ U' He); [| now rewrite Hpe].
    rewrite C. apply in_or_app. right. now left. }
  auto.
Qed.

(** *** The read-first variant *)

Lemma find_unique (p : Decision -> bool) t d :
  In d t -> p d = true ->
  (forall e, In e t -> p e = true -> e = d) ->
  find p t = Some d.
Proof.
  intros Hin Hp Hu. destruct (find p t) as [e|] eqn:F.
  - apply find_some in F as [He Hpe]. f_equal. now apply Hu.
  - now rewrite (find_none _ _ F d Hin) in Hp.
Qed.

Lemma find_absent (p : Decision -> bool) t :
  (forall e, In e t -> p e = false) -> find p t = None.
Proof.
  intros H. destruct (find p t) as [e|] eqn:F; [| reflexivity].
  apply find_some in F as [He Hpe]. now rewrite (H e He) in Hpe.
Qed.

Lemma key_test_iff a b d :
  (ActorID d =? a) && (RecipientID d =? b) = true <-> pk d = (a, b).
Proof.
  unfold pk. rewrite andb_true_iff, !Z.eqb_eq.
  split; [intros [-> ->]; reflexivity | intros E; now injection E].
Qed.

(** The read-first listing returns the stored [liked] value when the pair
    has a row, and no value (and no error) when it has none. *)
Lemma read_first_returns_previous now t a b like :
  (forall d, pk_unique t -> In d t -> pk d = (a, b) ->
     fst (snd (ReadFirst.CreateOrUpdateDecision now t a b like))
     = Some (Liked d))
  /\ ((forall d, In d t -> pk d <> (a, b)) ->
      snd (ReadFirst.CreateOrUpdateDecision now t a b like) = (None, None)).
Proof.
  split.
  - intros d U Hin Hpk. unfold ReadFirst.CreateOrUpdateDecision, First.
    rewrite (find_unique _ t d Hin).
    + destruct (negb (Bool.eqb (Liked d) like)); [| reflexivity].
      now destruct (Save now _ t) as [t' [e|]].
    + now apply key_test_iff.
    + intros e He Hpe. apply key_test_iff in Hpe.
      apply (pk_unique_In t); auto. congruence.
  - intros H. unfold ReadFirst.CreateOrUpdateDecision, First.
    rewrite find_absent.
    + unfold Create.
      assert (existsb (same_pk (stamped now a b like)) t = false) as ->;
        [| reflexivity].
      apply not_true_iff_false. intros C.
      apply existsb_exists in C as (e & He & Hs).
      apply same_pk_iff in Hs. apply (H e He). now rewrite <- Hs.
    + intros e He. apply not_true_iff_false. intros C.
      apply key_test_iff in C. now apply (H e He).
Qed.

(** C7 as stated fails on the upsert the service calls: its only result is
    the error, and that is the same whether the pair was liked before,
    passed before or unseen, so nothing read from it is the previous
    value. *)
Lemma live_upsert_returns_no_previous :
  snd (CreateOrUpdateDecision 2000 [mkDecision 1 2 true 1000 1000] 1 2 false)
  = None
  /\ snd (CreateOrUpdateDecision 2000 [mkDecision 1 2 false 1000 1000] 1 2 false)
     = None
  /\ snd (CreateOrUpdateDecision 2000 [] 1 2 false) = None
  /\ ~ (exists previous : option error -> option bool,
          previous
            (snd (CreateOrUpdateDecision
                    2000 [mkDecision 1 2 true 1000 1000] 1 2 false))
          = Some true
          /\ previous
               (snd (CreateOrUpdateDecision
                       2000 [mkDecision 1 2 false 1000 1000] 1 2 false))
             = Some false).
Proof.
  repeat split; try reflexivity.
  intros (previous & H1 & H2). cbn [CreateOrUpdateDecision snd] in H1, H2.
  rewrite H1 in H2. discriminate H2.
Qed.

(** C7, amended.  The read-first listing of the upsert returns the stored
    [liked] value when the pair has a row and no value when the pair is
    unseen; the upsert the service calls returns only its error, which is
    nil on every call, and no previous value. *)
Theorem upsert_previous_value now t a b like :
  (forall d, pk_unique t -> In d t -> pk d = (a, b) ->
     fst (snd (ReadFirst.CreateOrUpdateDecision now t a b like))
     = Some (Liked d))
  /\ ((forall d, In d t -> pk d <> (a, b)) ->
      snd (ReadFirst.CreateOrUpdateDecision now t a b like) = (None, None))
  /\ snd (CreateOrUpdateDecision now t a b like) = None.
Proof.
  destruct (read_first_returns_previous now t a b like) as [H1 H2].
  split; [exact H1 |]. split; [exact H2 | reflexivity].
Qed.

Lemma upsert_previous_value_witness :
  fst (snd (ReadFirst.CreateOrUpdateDecision
              2000 [mkDecision 1 2 true 1000 1000] 1 2 false))
  = Some true
  /\ snd (ReadFirst.CreateOrUpdateDecision
            2000 [mkDecision 1 2 true 1000 1000] 3 2 false)
     = (None, None).
Proof.
  split.
  - apply (proj1 (upsert_previous_value
                    2000 [mkDecision 1 2 true 1000 1000] 1 2 false)
                 (mkDecision 1 2 true 1000 1000)).
    + repeat constructor. intros [].
    + now left.
    + reflexivity.
  - apply (proj1 (proj2 (upsert_previous_value
                           2000 [mkDecision 1 2 true 1000 1000] 3 2 false))).
    intros d [<- | []]. discriminate.
Defined.

End UpsertFacts.

(** ** The service *)

Module ServiceFacts.
Import Db Gorm Repository GormFacts RepositoryFacts ListQueries UpsertFacts.
Import Service.

(** C5. For parsed identifiers [a <> b], a like returns [mutual = true]
    exactly when the table holds a row [b -> a] with [liked = true] when
    [HasLiked] runs (equivalently, before the call); a pass returns
    [mutual = false] and makes no [HasLiked] call. *)
Theorem mutual_like_detection now req w a b :
  Strconv.ParseUint (ActorUserId req) = Some a ->
  Strconv.ParseUint (RecipientUserId req) = Some b ->
  a <> b ->
  let r := fst (PutDecision now req w) in
  let w' := snd (PutDecision now req w) in
  (LikedRecipient req = true ->
     exists mutual,
       r = Ok (mkPutDecisionResponse mutual)
       /\ (mutual = true <-> has_row (w_db w') b a true)
       /\ (mutual = true <-> has_row (w_db w) b a true)
       /\ w_log w' = w_log w ++ [CallCreateOrUpdateDecision a b true;
                                 CacheIncr (KeyForLikeCount b);
                                 CacheExpire (KeyForLikeCount b);
                                 CallHasLiked b a])
  /\ (LikedRecipient req = false ->
        r = Ok (mkPutDecisionResponse false)
        /\ w_log w' = w_log w ++ [CallCreateOrUpdateDecision a b false;
                                  CacheDecr (KeyForLikeCount b);
                                  CacheExpire (KeyForLikeCount b)]
        /\ (forall x y, In (CallHasLiked x y) (w_log w') ->
                        In (CallHasLiked x y) (w_log w))).
Proof.
  intros Pa Pb Hab r w'. subst r w'. unfold PutDecision. rewrite Pa, Pb.
  destruct (Z.eqb_spec a b) as [| _]; [contradiction |].
  destruct w as [t cache log]. split; intros ->.
  - cbn. eexists. split; [reflexivity |].
    rewrite <- !app_assoc. cbn [app].
    split; [apply HasLiked_iff |]. split; [| reflexivity].
    rewrite HasLiked_iff.
    apply (has_row_upsert now t a b true b a true). congruence.
  - cbn. rewrite <- !app_assoc. cbn [app].
    split; [reflexivity |]. split; [reflexivity |].
    intros x y H. apply in_app_or in H as [H | H]; [exact H |].
    destruct H as [H | [H | [H | []]]]; discriminate.
Qed.

Definition one_like : World :=
  mkWorld [mkDecision 1 2 true 1000 1000] [] [].

Lemma mutual_like_detection_witness :
  fst (PutDecision 7000 (mkPutDecisionRequest (lit "2") (lit "1") true) one_like)
  = Ok (mkPutDecisionResponse true)
  /\ fst (PutDecision 7000 (mkPutDecisionRequest (lit "2") (lit "1") false)
                      one_like)
     = Ok (mkPutDecisionResponse false).
Proof.
  pose proof (mutual_like_detection
                7000 (mkPutDecisionRequest (lit "2") (lit "1") true) one_like
                2 1 eq_refl eq_refl ltac:(discriminate)) as [L _].
  pose proof (mutual_like_detection
                7000 (mkPutDecisionRequest (lit "2") (lit "1") false) one_like
                2 1 eq_refl eq_refl ltac:(discriminate)) as [_ P].
  split.
  - destruct (L eq_refl) as (m & E & _ & M & _). rewrite E.
    do 2 f_equal. apply M. exists (mkDecision 1 2 true 1000 1000).
    simpl. auto.
  - exact (proj1 (P eq_refl)).
Defined.

(** *** Page sizes that are not positive *)

Lemma apply_limit_length n l :
  (List.length (apply_limit n l) <= List.length l)%nat.
Proof.
  destruct n as [k|]; simpl; [| lia].
  destruct (0 <=? k); [| lia]. unfold take.
  destruct (_ <=? _); [lia |]. rewrite length_firstn. lia.
Qed.

Lemma Find_length q :
  (List.length (Find q) <= List.length (q_rows q))%nat.
Proof.
  unfold Find. pose proof (apply_limit_length (q_limit q) (matching q)).
  pose proof (matching_length_le q). lia.
Qed.

Lemma index_negative l i : i < 0 -> index l i = None.
Proof.
  unfold index. intros H. now destruct (Z.ltb_spec i 0); [| lia].
Qed.

Lemma index_beyond l i : len l <= i -> index l i = None.
Proof.
  unfold index. intros H. destruct (i <? 0); [reflexivity |].
  now destruct (Z.leb_spec (len l) i); [| lia].
Qed.

(** With [limit <= 0] a page is produced only for [limit = 0] and no
    selected row; otherwise [decisions[limit-1]] is out of range. *)
Definition nonpositive_outcome (L : Z) (selected : list Decision)
  : result (list Decision * option bytes) :=
  match selected with
  | [] => if L =? 0 then Ok ([], None) else Panic
  | _ :: _ => Panic
  end.

Lemma page_of_nonpositive q c L :
  q_limit q = Some (Int.add L 1) ->
  Int.min_int64 <= L <= 0 ->
  fits (List.length (q_rows q)) ->
  page_of q c L = nonpositive_outcome L (matching (apply_cursor c q)).
Proof.
  intros Hlim HL Hfit. unfold page_of, nonpositive_outcome.
  pose proof (Find_length (apply_cursor c q)) as FL.
  rewrite apply_cursor_rows in FL. unfold fits in Hfit.
  destruct (Z.eqb_spec L 0) as [-> | Hnz].
  - unfold Find. rewrite apply_cursor_limit, Hlim.
    change (Int.add 0 1) with 1. cbn [apply_limit]. change (0 <=? 1) with true.
    cbv iota. destruct (matching (apply_cursor c q)) as [|x Q]; [reflexivity |].
    assert (take 1 (x :: Q) = [x]) as ->.
    { unfold take. destruct (_ <=? _) eqn:E; [| reflexivity].
      apply Z.leb_le in E. destruct Q; [reflexivity | simpl in E; lia]. }
    reflexivity.
  - assert ((L <? len (Find (apply_cursor c q))) = true) as ->
        by (apply Z.ltb_lt; unfold len; lia).
    assert (index (Find (apply_cursor c q)) (Int.sub L 1) = None) as ->.
    { unfold Int.sub. destruct (Z.eq_dec L Int.min_int64) as [-> | Hm].
      - change (Int.wrap64 (Int.min_int64 - 1)) with Int.max_int64.
        apply index_beyond. unfold len. lia.
      - rewrite wrap64_id
          by (unfold Int.is_int64, Int.min_int64, Int.max_int64 in *; lia).
        apply index_negative. lia. }
    now destruct (matching (apply_cursor c q)).
Qed.

Lemma ListLikedYou_limit req w rid :
  Strconv.ParseUint (ll_RecipientUserId req) = Some rid ->
  w_log (snd (ListLikedYou req w))
  = w_log w ++ [CallGetLikers rid (PaginationToken req) 5].
Proof. unfold ListLikedYou. now intros ->. Qed.

Lemma ListNewLikedYou_limit req w rid :
  Strconv.ParseUint (ll_RecipientUserId req) = Some rid ->
  w_log (snd (ListNewLikedYou req w))
  = w_log w ++ [CallGetNewLikers rid (PaginationToken req) 5].
Proof. unfold ListNewLikedYou. now intros ->. Qed.

(** C9 as stated fails: with [limit = 0] and no liker the repository
    returns an empty page and no error. *)
Lemma zero_limit_returns_page :
  GetLikers [] 1 None 0 = Ok ([], None)
  /\ GetNewLikers [] 1 None 0 = Ok ([], None)
  /\ ~ (forall t R tok L,
          L <= 0 ->
          exists msg,
            GetLikers t R tok L = Err (StatusError Codes.InvalidArgument msg)).
Proof.
  split; [reflexivity |]. split; [reflexivity |].
  intros H. destruct (H [] 1 None 0 ltac:(lia)) as [msg E]. discriminate E.
Qed.

(** C9, amended.  The page size is not validated anywhere.  The service
    passes the constant 5 to both list queries.  Called with [limit <= 0]
    and a token that decodes, the repository never returns an error: it
    returns an empty page without token when [limit = 0] and no row is
    selected, and panics on the slice index otherwise. *)
Theorem nonpositive_limit_not_validated t R tok c L :
  Pagination.Decode (getString tok) = Ok c ->
  Int.min_int64 <= L <= 0 ->
  fits (List.length t) ->
  GetLikers t R tok L
  = nonpositive_outcome L (matching (apply_cursor c (likers_query t R L)))
  /\ GetNewLikers t R tok L
     = nonpositive_outcome L
         (matching (apply_cursor c (new_likers_query t R L)))
  /\ (forall req w rid,
        Strconv.ParseUint (ll_RecipientUserId req) = Some rid ->
        w_log (snd (ListLikedYou req w))
        = w_log w ++ [CallGetLikers rid (PaginationToken req) 5])
  /\ (forall req w rid,
        Strconv.ParseUint (ll_RecipientUserId req) = Some rid ->
        w_log (snd (ListNewLikedYou req w))
        = w_log w ++ [CallGetNewLikers rid (PaginationToken req) 5]).
Proof.
  intros Hd HL Hfit.
  rewrite (GetLikers_page _ _ _ _ _ Hd), (GetNewLikers_page _ _ _ _ _ Hd).
  split; [now apply page_of_nonpositive |].
  split; [now apply page_of_nonpositive |].
  split; [apply ListLikedYou_limit | apply ListNewLikedYou_limit].
Qed.

Lemma nonpositive_limit_not_validated_witness :
  GetLikers mutual_table 99 None (-3) = Panic
  /\ GetLikers mutual_table 7 None 0 = Ok ([], None).
Proof.
  assert (Int.min_int64 <= -3 <= 0 /\ Int.min_int64 <= 0 <= 0) as [H3 H0]
      by (unfold Int.min_int64; lia).
  assert (fits (List.length mutual_table)) as F
      by (unfold fits, Int.max_int64; simpl; lia).
  split.
  - exact (proj1 (nonpositive_limit_not_validated
                    mutual_table 99 None Pagination.zero (-3) eq_refl H3 F)).
  - exact (proj1 (nonpositive_limit_not_validated
                    mutual_table 7 None Pagination.zero 0 eq_refl H0 F)).
Defined.

End ServiceFacts.

(** ** Paging to the end *)

Module Paging.
Import Db Gorm Repository GormFacts RepositoryFacts ListQueries UpsertFacts.

(** The likers of [R] that [R] has not passed. *)
Definition qualifies (t : Table) (R : Z) (d : Decision) : bool :=
  liked_into R d && not_passed_by t R d.

(** All of them, in the order of the query. *)
Definition sorted_likers (t : Table) (R : Z) : list Decision :=
  sort_by updated_desc_actor_desc (filter (qualifies t R) t).

Lemma holds_all_likers t R d :
  holds_all [liked_into R; not_passed_by t R] d = qualifies t R d.
Proof. unfold qualifies. cbn. now rewrite andb_true_r. Qed.

Lemma matching_likers_query t R K :
  matching (likers_query t R K) = sorted_likers t R.
Proof.
  unfold matching, sorted_likers, likers_query.
  cbn [q_order q_where q_rows Limit Order Where From apply_order app].
  f_equal. apply filter_ext. intros d. apply holds_all_likers.
Qed.

Lemma CountLikers_length t R :
  CountLikers t R = len (sorted_likers t R).
Proof.
  unfold CountLikers, Count, len, sorted_likers.
  cbn [q_where q_rows Where From app].
  rewrite sort_by_length. do 2 f_equal.
  apply filter_ext. intros d. apply holds_all_likers.
Qed.

Lemma sorted_likers_In t R d :
  In d (sorted_likers t R) <-> In d t /\ qualifies t R d = true.
Proof.
  unfold sorted_likers. rewrite sort_by_In. apply filter_In.
Qed.

Lemma sorted_likers_recipient t R d :
  In d (sorted_likers t R) -> RecipientID d = R.
Proof.
  intros H. apply sorted_likers_In in H as [_ H].
  unfold qualifies, liked_into in H. zbool. assumption.
Qed.

Lemma pk_unique_NoDup t : pk_unique t -> NoDup t.
Proof. apply NoDup_map_inv. Qed.

Lemma sorted_likers_NoDup t R : pk_unique t -> NoDup (sorted_likers t R).
Proof.
  intros U. unfold sorted_likers.
  apply (Permutation_NoDup (Permutation_sym (sort_by_perm _ _))).
  apply NoDup_filter. now apply pk_unique_NoDup.
Qed.

Lemma strict_of_sorted (l : list Decision) :
  StronglySorted (fun x y => updated_desc_actor_desc x y = true) l ->
  NoDup l ->
  (forall x y, In x l -> In y l ->
               UpdatedAt x = UpdatedAt y -> ActorID x = ActorID y -> x = y) ->
  StronglySorted strictly_before l.
Proof.
  induction 1 as [|x l Hs IH Hx]; intros Hn Hk.
  - constructor.
  - apply NoDup_cons_iff in Hn as [Hin Hn]. constructor.
    + apply IH; [exact Hn |]. intros a b Ha Hb. apply Hk; now right.
    + rewrite Forall_forall in *. intros y Hy.
      specialize (Hx y Hy). unfold updated_desc_actor_desc in Hx.
      unfold strictly_before. apply orb_true_iff in Hx as [Hx | Hx]; zbool.
      * left. lia.
      * destruct (Z.eq_dec (ActorID x) (ActorID y)) as [E | E]; [| right; lia].
        exfalso. apply Hin.
        rewrite (Hk x y (or_introl eq_refl) (or_intror Hy)); auto.
Qed.

(** Under the primary key no two likers of [R] share a position, so the
    order of the query is strict. *)
Lemma sorted_likers_strict t R :
  pk_unique t -> StronglySorted strictly_before (sorted_likers t R).
Proof.
  intros U. apply strict_of_sorted.
  - apply sort_by_sorted; [apply before_total | apply before_trans].
  - now apply sorted_likers_NoDup.
  - intros x y Hx Hy _ Ha.
    pose proof (sorted_likers_recipient _ _ _ Hx) as Rx.
    pose proof (sorted_likers_recipient _ _ _ Hy) as Ry.
    apply sorted_likers_In in Hx as [Hx _], Hy as [Hy _].
    apply (pk_unique_In t); auto. unfold pk. congruence.
Qed.

Lemma strictly_before_asym x y : strictly_before x y -> ~ strictly_before y x.
Proof. unfold strictly_before. lia. Qed.

Lemma filter_all (p : Decision -> bool) l :
  Forall (fun d => p d = true) l -> filter p l = l.
Proof.
  induction 1 as [|x l Hx _ IH]; simpl; [reflexivity |].
  now rewrite Hx, IH.
Qed.

(** The rows after the position of [x] are exactly those listed after
    [x]. *)
Lemma filter_after_split P x S :
  StronglySorted strictly_before (P ++ x :: S) ->
  filter (after_cursor (time_UnixMilli (UnixMilli (UpdatedAt x))) (ActorID x))
         (P ++ x :: S) = S.
Proof.
  induction P as [|p P IH]; intros H; simpl in *.
  - apply StronglySorted_inv in H as [_ H].
    assert (after_cursor (time_UnixMilli (UnixMilli (UpdatedAt x)))
                         (ActorID x) x = false) as ->.
    { apply not_true_iff_false. rewrite after_cursor_iff.
      unfold strictly_before. lia. }
    apply filter_all. eapply Forall_impl; [| exact H].
    intros d Hd. now apply after_cursor_iff.
  - apply StronglySorted_inv in H as [Hs Hp].
    assert (after_cursor (time_UnixMilli (UnixMilli (UpdatedAt x)))
                         (ActorID x) p = false) as ->.
    { apply not_true_iff_false. rewrite after_cursor_iff.
      apply strictly_before_asym.
      rewrite Forall_forall in Hp. apply Hp. apply in_or_app. right. now left. }
    now apply IH.
Qed.

Section Walk.
Variables (t : Table) (R : Z) (K : Z).
Hypothesis unique : pk_unique t.
Hypothesis table_fits : fits (List.length t).
Hypothesis K_range : 0 < K <= Int.max_int64.

(** Every qualifying row can be resumed from: its actor and its time are
    positive (and within the cursor's field types). *)
Hypothesis resumable :
  forall d, In d t -> qualifies t R d = true ->
            0 < ActorID d <= Int.max_uint64
            /\ 0 < UpdatedAt d <= Int.max_int64.

Let call (tok : option bytes) := GetLikers t R tok K.
Let Qs := sorted_likers t R.

(** Where a token stands in the full list: nowhere yet, or just after the
    last row of [P]. *)
Definition stands_after (P : list Decision) (tok : option bytes) : Prop :=
  (P = [] /\ tok = None)
  \/ (exists P' x, P = P' ++ [x] /\ tok = Some (token_of x)).

Lemma resumable_cursor x :
  In x Qs -> PaginationFacts.wf_cursor (cursor_of x)
             /\ 0 < ActorID x /\ 0 < UpdatedAt x.
Proof.
  intros H. apply sorted_likers_In in H as [Hin Hq].
  destruct (resumable x Hin Hq) as [Ha Hu].
  unfold PaginationFacts.wf_cursor, cursor_of, Int.is_uint64, Int.is_int64,
    UnixMilli, Int.min_int64 in *.
  cbn [Pagination.ActorID Pagination.UpdatedUnix]. lia.
Qed.

Lemma likers_query_ordered : ordered (likers_query t R K).
Proof. reflexivity. Qed.

(** A call made at a position selects exactly the rows after it. *)
Lemma call_at P S tok :
  Qs = P ++ S -> stands_after P tok ->
  exists c, call tok = page_of (likers_query t R K) c K
            /\ matching (apply_cursor c (likers_query t R K)) = S.
Proof.
  intros E [[-> ->] | (P' & x & -> & ->)].
  - exists Pagination.zero. split; [reflexivity |].
    rewrite apply_cursor_zero, matching_likers_query. exact E.
  - assert (In x Qs) as Hx.
    { rewrite E. apply in_or_app. left. apply in_or_app. right. now left. }
    destruct (resumable_cursor x Hx) as (W & Ha & Hu).
    exists (cursor_of x). split.
    + unfold call. apply GetLikers_page. cbn [getString].
      now apply PaginationFacts.Decode_Encode_token.
    + assert (Qs = P' ++ x :: S) as E'
          by (rewrite E, <- app_assoc; reflexivity).
      rewrite matching_apply_cursor_of by auto using likers_query_ordered.
      rewrite matching_likers_query. change (sorted_likers t R) with Qs.
      rewrite E'. apply filter_after_split. rewrite <- E'.
      now apply sorted_likers_strict.
Qed.

Lemma suffix_fits P S : Qs = P ++ S -> fits (List.length S).
Proof.
  intros E. unfold fits in *.
  assert (List.length Qs <= List.length t)%nat as H.
  { unfold Qs, sorted_likers. rewrite sort_by_length. apply filter_length_le. }
  rewrite E, length_app in H. lia.
Qed.

(** From any position, enough calls return the rest of the list. *)
Lemma walk_suffix : forall fuel P S tok,
  Qs = P ++ S -> stands_after P tok ->
  (List.length S < fuel)%nat ->
  Client.page_through call fuel tok = Some S.
Proof.
  induction fuel as [|fuel IH]; intros P S tok E Hpos Hfuel; [lia |].
  destruct (call_at P S tok E Hpos) as (c & Hcall & Hsel).
  pose proof (suffix_fits P S E) as FS.
  cbn [Client.page_through]. rewrite Hcall.
  destruct (Z.le_gt_cases (len S) K) as [Hle | Hgt].
  - pose proof (page_of_last (likers_query t R K) c K eq_refl K_range) as PL.
    rewrite Hsel in PL. now rewrite (PL FS Hle).
  - pose proof (page_of_more (likers_query t R K) c K eq_refl K_range) as PM.
    rewrite Hsel in PM.
    destruct (PM FS ltac:(lia)) as (last & Hn & Hp). rewrite Hp.
    assert (firstn (Z.to_nat K) S
            = firstn (Z.to_nat (K - 1)) S ++ [last]) as Hsnoc.
    { replace (Z.to_nat K) with (Datatypes.S (Z.to_nat (K - 1))) by lia.
      now apply firstn_snoc. }
    rewrite (IH (P ++ firstn (Z.to_nat K) S) (skipn (Z.to_nat K) S)).
    + now rewrite firstn_skipn.
    + now rewrite <- app_assoc, firstn_skipn.
    + right. exists (P ++ firstn (Z.to_nat (K - 1)) S), last.
      split; [| reflexivity]. now rewrite Hsnoc, app_assoc.
    + rewrite length_skipn. unfold len in Hgt. lia.
Qed.

Lemma walk_all fuel :
  (List.length Qs < fuel)%nat ->
  Client.all_likers t R K fuel = Some Qs.
Proof.
  intros H. apply (walk_suffix fuel [] Qs None); auto.
  now left.
Qed.

End Walk.

Lemma NoDup_actors (l : list Decision) R :
  NoDup (map pk l) -> (forall d, In d l -> RecipientID d = R) ->
  NoDup (map ActorID l).
Proof.
  induction l as [|x l IH]; intros Hn Hr; simpl in *.
  - constructor.
  - apply NoDup_cons_iff in Hn as [Hx Hn]. constructor.
    + intros C. apply Hx. apply in_map_iff in C as (y & Ey & Hy).
      apply in_map_iff. exists y. split; [| exact Hy].
      unfold pk. rewrite Ey. f_equal.
      rewrite (Hr y (or_intror Hy)), (Hr x (or_introl eq_refl)). reflexivity.
    + apply IH; auto.
Qed.

Lemma sorted_likers_actors t R :
  pk_unique t -> NoDup (map ActorID (sorted_likers t R)).
Proof.
  intros U. apply (NoDup_actors _ R).
  - unfold sorted_likers.
    apply (Permutation_NoDup
             (Permutation_map pk (Permutation_sym (sort_by_perm _ _)))).
    unfold pk_unique in U. revert U.
    generalize (qualifies t R). intros p. induction t as [|x l IH]; simpl.
    + auto.
    + intros Hn. apply NoDup_cons_iff in Hn as [Hx Hn].
      destruct (p x); simpl; [| auto]. constructor; [| auto].
      intros C. apply Hx. apply in_map_iff in C as (y & Ey & Hy).
      apply filter_In in Hy as [Hy _]. apply in_map_iff. now exists y.
  - apply sorted_likers_recipient.
Qed.

End Paging.


(** ** Paging and counting *)

Module PagingClaims.
Import Db Gorm Repository GormFacts RepositoryFacts ListQueries UpsertFacts.
Import Paging.

(** Two likers of user 9; the later one is user 0. *)
Definition zero_actor_table : Table :=
  [mkDecision 5 9 true 1000 1000; mkDecision 0 9 true 2000 2000].

Lemma zero_actor_table_reachable : reachable zero_actor_table.
Proof.
  apply (reach_upsert [mkDecision 5 9 true 1000 1000] 2000 0 9 true).
  apply (reach_upsert [] 1000 5 9 true). constructor.
Qed.

(** The first page ends on user 0; its token is ignored by the next call,
    which returns the first page again. *)
Lemma zero_actor_page_repeats :
  GetLikers zero_actor_table 9 None 1
  = Ok ([mkDecision 0 9 true 2000 2000],
        Some (token_of (mkDecision 0 9 true 2000 2000)))
  /\ GetLikers zero_actor_table 9
       (Some (token_of (mkDecision 0 9 true 2000 2000))) 1
     = GetLikers zero_actor_table 9 None 1.
Proof. split; vm_compute; reflexivity. Qed.

Lemma zero_actor_never_ends fuel :
  forall tok,
    tok = None \/ tok = Some (token_of (mkDecision 0 9 true 2000 2000)) ->
    Client.page_through
      (fun tok => GetLikers zero_actor_table 9 tok 1) fuel tok = None.
Proof.
  destruct zero_actor_page_repeats as [P1 P2].
  induction fuel as [|fuel IH]; intros tok H; [reflexivity |].
  cbn [Client.page_through].
  assert (GetLikers zero_actor_table 9 tok 1
          = Ok ([mkDecision 0 9 true 2000 2000],
                Some (token_of (mkDecision 0 9 true 2000 2000)))) as ->.
  { destruct H as [-> | ->]; [exact P1 | now rewrite P2]. }
  rewrite IH; [reflexivity | now right].
Qed.

(** C3 as stated fails: with page size 1 over the two likers above, the
    walk from an absent token never reaches a page without token, and user
    0 is returned again and again while user 5 never is. *)
Lemma paging_counterexample :
  pk_unique zero_actor_table
  /\ List.length (sorted_likers zero_actor_table 9) = 2%nat
  /\ (forall fuel, Client.all_likers zero_actor_table 9 1 fuel = None)
  /\ GetLikers zero_actor_table 9
       (Some (token_of (mkDecision 0 9 true 2000 2000))) 1
     = GetLikers zero_actor_table 9 None 1.
Proof.
  split; [apply reachable_unique, zero_actor_table_reachable |].
  split; [reflexivity |].
  split; [| apply zero_actor_page_repeats].
  intros fuel. apply zero_actor_never_ends. now left.
Qed.

(** C3, amended.  When every qualifying liker has a positive actor id and a
    positive update time, paging from an absent token with a page size
    [K > 0] ends after at most [N + 1] calls and returns exactly the [N]
    qualifying likers: none twice, none left out, in strictly descending
    order of update time and actor. *)
Theorem paging_complete t R K fuel :
  pk_unique t ->
  fits (List.length t) ->
  0 < K <= Int.max_int64 ->
  (forall d, In d t -> qualifies t R d = true ->
             0 < ActorID d <= Int.max_uint64
             /\ 0 < UpdatedAt d <= Int.max_int64) ->
  (List.length (filter (qualifies t R) t) < fuel)%nat ->
  exists rows,
    Client.all_likers t R K fuel = Some rows
    /\ List.length rows = List.length (filter (qualifies t R) t)
    /\ Permutation rows (filter (qualifies t R) t)
    /\ NoDup (map ActorID rows)
    /\ StronglySorted strictly_before rows.
Proof.
  intros U F HK Hres Hfuel. exists (sorted_likers t R).
  assert (List.length (sorted_likers t R)
          = List.length (filter (qualifies t R) t)) as Hlen
      by (unfold sorted_likers; apply sort_by_length).
  split; [apply walk_all; auto; lia |].
  split; [exact Hlen |].
  split; [apply sort_by_perm |].
  split; [now apply sorted_likers_actors | now apply sorted_likers_strict].
Qed.

Definition three_likers : Table :=
  [mkDecision 1 9 true 1000 1000;
   mkDecision 2 9 true 1000 1000;
   mkDecision 3 9 true 3000 3000;
   mkDecision 9 3 false 4000 4000;
   mkDecision 4 9 true 500 500].

Lemma three_likers_hypotheses :
  pk_unique three_likers
  /\ fits (List.length three_likers)
  /\ (forall d, In d three_likers -> qualifies three_likers 9 d = true ->
                0 < ActorID d <= Int.max_uint64
                /\ 0 < UpdatedAt d <= Int.max_int64).
Proof.
  split; [| split].
  - unfold pk_unique. simpl.
    repeat constructor; simpl; intuition discriminate.
  - unfold fits, Int.max_int64. simpl. lia.
  - intros d Hin _. unfold Int.max_uint64, Int.max_int64. simpl in Hin.
    repeat (destruct Hin as [<- | Hin]; [simpl; lia |]). destruct Hin.
Qed.

Lemma paging_complete_witness :
  exists rows,
    Client.all_likers three_likers 9 2 4 = Some rows
    /\ List.length rows = List.length (filter (qualifies three_likers 9) three_likers)
    /\ Permutation rows (filter (qualifies three_likers 9) three_likers)
    /\ NoDup (map ActorID rows)
    /\ StronglySorted strictly_before rows.
Proof.
  destruct three_likers_hypotheses as (U & F & Hres).
  apply (paging_complete three_likers 9 2 4 U F).
  - unfold Int.max_int64. lia.
  - exact Hres.
  - vm_compute. lia.
Defined.

(** C6 as stated fails on the same table: the count is 2, but paging with
    page size 1 never comes to an end, so no enumeration has that size. *)
Lemma count_counterexample :
  CountLikers zero_actor_table 9 = 2
  /\ ~ (exists fuel rows,
          Client.all_likers zero_actor_table 9 1 fuel = Some rows
          /\ CountLikers zero_actor_table 9 = len rows).
Proof.
  split; [reflexivity |].
  intros (fuel & rows & E & _).
  unfold Client.all_likers in E.
  rewrite zero_actor_never_ends in E; [discriminate | now left].
Qed.

(** C6, amended.  When every qualifying liker has a positive actor id and a
    positive update time, [CountLikers] equals the number of rows paging
    returns, for every page size [K > 0]. *)
Theorem count_matches_paging t R K fuel :
  pk_unique t ->
  fits (List.length t) ->
  0 < K <= Int.max_int64 ->
  (forall d, In d t -> qualifies t R d = true ->
             0 < ActorID d <= Int.max_uint64
             /\ 0 < UpdatedAt d <= Int.max_int64) ->
  (List.length (filter (qualifies t R) t) < fuel)%nat ->
  exists rows,
    Client.all_likers t R K fuel = Some rows
    /\ CountLikers t R = len rows.
Proof.
  intros U F HK Hres Hfuel. exists (sorted_likers t R).
  assert (List.length (sorted_likers t R)
          = List.length (filter (qualifies t R) t)) as Hlen
      by (unfold sorted_likers; apply sort_by_length).
  split; [apply walk_all; auto; lia |].
  apply CountLikers_length.
Qed.

Lemma count_matches_paging_witness :
  exists rows,
    Client.all_likers three_likers 9 2 4 = Some rows
    /\ CountLikers three_likers 9 = len rows.
Proof.
  destruct three_likers_hypotheses as (U & F & Hres).
  apply (count_matches_paging three_likers 9 2 4 U F).
  - unfold Int.max_int64. lia.
  - exact Hres.
  - vm_compute. lia.
Defined.

End PagingClaims.


(* ================================================================= *)
(** * Further properties of the repository *)

Module UpsertProps.
Import Db Gorm Repository GormFacts RepositoryFacts ListQueries UpsertFacts.

(** The upsert keeps the primary key unique and reports no error. *)
Theorem upsert_keeps_pairs_unique now t a b like :
  pk_unique t ->
  pk_unique (fst (CreateOrUpdateDecision now t a b like))
  /\ snd (CreateOrUpdateDecision now t a b like) = None.
Proof.
  intros U. split; [| reflexivity].
  apply CreateOnConflict_unique; [apply keeps_pk_liked | exact U].
Qed.

Lemma upsert_keeps_pairs_unique_witness :
  pk_unique (fst (CreateOrUpdateDecision 2000 mutual_table 1 99 false))
  /\ snd (CreateOrUpdateDecision 2000 mutual_table 1 99 false) = None.
Proof.
  apply upsert_keeps_pairs_unique.
  unfold pk_unique. simpl. repeat constructor; simpl; intuition discriminate.
Defined.

(** The upsert of one pair leaves the rows of every other pair as they
    are: none is added, removed or changed. *)
Theorem upsert_leaves_other_pairs now t a b like d :
  pk d <> (a, b) ->
  (In d (fst (CreateOrUpdateDecision now t a b like)) <-> In d t).
Proof.
  intros N. unfold CreateOrUpdateDecision. cbn [fst].
  apply CreateOnConflict_others; [apply keeps_pk_liked | exact N].
Qed.

Lemma upsert_leaves_other_pairs_witness :
  In (mkDecision 2 99 true 3000 3000)
     (fst (CreateOrUpdateDecision 5000 mutual_table 1 99 false))
  <-> In (mkDecision 2 99 true 3000 3000) mutual_table.
Proof.
  apply upsert_leaves_other_pairs. discriminate.
Defined.

Lemma has_row_after_upsert now t a b like :
  pk_unique t ->
  has_row (fst (CreateOrUpdateDecision now t a b like)) a b like.
Proof.
  intros U.
  destruct (existsb (fun d => same_pk d (stamped now a b like)) t) eqn:E.
  - apply existsb_exists in E as (d & Hin & Hs). apply same_pk_iff in Hs.
    destruct (CreateOrUpdateDecision_existing now t a b like d U Hin Hs)
      as (t1 & t2 & _ & ->).
    exists (mkDecision a b like (CreatedAt d) (UpdatedAt d)).
    split; [cbn [fst]; apply in_or_app; right; now left | auto].
  - rewrite CreateOrUpdateDecision_new.
    + exists (mkDecision a b like now now).
      split; [cbn [fst]; apply in_or_app; right; now left | auto].
    + intros d Hin C.
      assert (existsb (fun d => same_pk d (stamped now a b like)) t = true)
        as X; [| congruence].
      apply existsb_exists. exists d. split; [exact Hin |].
      now apply same_pk_iff.
Qed.

(** After the upsert the pair has a row with the value just written, and,
    under the primary key, no row with the other value: the last decision
    wins. *)
Theorem upsert_last_decision_wins now t a b like :
  pk_unique t ->
  has_row (fst (CreateOrUpdateDecision now t a b like)) a b like
  /\ ~ has_row (fst (CreateOrUpdateDecision now t a b like)) a b (negb like).
Proof.
  intros U.
  pose proof (has_row_after_upsert now t a b like U) as H.
  split; [exact H |].
  intros (e & He & Ea & Eb & El). destruct H as (d & Hd & Da & Db & Dl).
  assert (pk_unique (fst (CreateOrUpdateDecision now t a b like))) as U'
      by (apply CreateOnConflict_unique; [apply keeps_pk_liked | exact U]).
  assert (d = e) as ->
      by (apply (pk_unique_In _ _ _ U' Hd He); unfold pk; congruence).
  rewrite Dl in El. now destruct like.
Qed.

Lemma upsert_last_decision_wins_witness :
  has_row (fst (CreateOrUpdateDecision 2000 mutual_table 1 99 false)) 1 99 false
  /\ ~ has_row (fst (CreateOrUpdateDecision 2000 mutual_table 1 99 false))
               1 99 (negb false).
Proof.
  apply upsert_last_decision_wins.
  unfold pk_unique. simpl. repeat constructor; simpl; intuition discriminate.
Defined.

Lemma assign_liked_twice new new' r :
  Liked new = Liked new' ->
  assign_all [liked] new' (assign_all [liked] new r) = assign_all [liked] new r.
Proof. intros H. cbn. now rewrite H. Qed.

Lemma assign_liked_self new new' :
  same_pk new new' = true -> Liked new = Liked new' ->
  assign_all [liked] new' new = new.
Proof.
  intros _ H. destruct new. cbn in *. now rewrite <- H.
Qed.

Lemma CreateOnConflict_liked_twice new new' t :
  same_pk new new' = true -> Liked new = Liked new' ->
  CreateOnConflict [liked] new' (CreateOnConflict [liked] new t)
  = CreateOnConflict [liked] new t.
Proof.
  intros Hk Hl. induction t as [|r t IH]; cbn [CreateOnConflict].
  - rewrite Hk. now rewrite assign_liked_self.
  - destruct (same_pk r new) eqn:E; cbn [CreateOnConflict].
    + assert (same_pk (assign_all [liked] new r) new' = true) as ->.
      { apply same_pk_iff. rewrite assign_all_pk by apply keeps_pk_liked.
        apply same_pk_iff in E, Hk. congruence. }
      now rewrite assign_liked_twice.
    + assert (same_pk r new' = false) as ->.
      { apply same_pk_false. apply same_pk_false in E.
        apply same_pk_iff in Hk. congruence. }
      now rewrite IH.
Qed.

(** Repeating a decision changes nothing: a second upsert of the same
    value for the same pair, at any later time, leaves the table exactly
    as the first one left it. *)
Theorem upsert_repeat_is_noop now now' t a b like :
  fst (CreateOrUpdateDecision now'
         (fst (CreateOrUpdateDecision now t a b like)) a b like)
  = fst (CreateOrUpdateDecision now t a b like).
Proof.
  unfold CreateOrUpdateDecision. cbn [fst].
  apply CreateOnConflict_liked_twice; [| reflexivity].
  apply same_pk_iff. reflexivity.
Qed.

(** *** The read-first listing *)

Lemma update_where_unique d' t1 d t2 :
  pk_unique (t1 ++ d :: t2) -> pk d' = pk d ->
  update_where (same_pk d') (fun _ => d') (t1 ++ d :: t2) = t1 ++ d' :: t2.
Proof.
  intros U E.
  assert (forall e, In e t1 \/ In e t2 -> same_pk d' e = false) as N.
  { intros e He. apply same_pk_false. intros C.
    assert (e = d) as ->.
    { apply (pk_unique_In _ _ _ U); [| | congruence].
      - apply in_or_app. destruct He; [now left | right; now right].
      - apply in_or_app. right. now left. }
    unfold pk_unique in U. rewrite map_app in U. cbn [map] in U.
    apply NoDup_remove_2 in U. apply U. rewrite <- map_app.
    apply in_map, in_or_app. exact He. }
  assert (forall l, (forall e, In e l -> same_pk d' e = false) ->
                    update_where (same_pk d') (fun _ => d') l = l) as Same.
  { induction l as [|x l IH]; intros H; cbn [update_where]; [reflexivity |].
    rewrite (H x (or_introl eq_refl)), IH; auto.
    intros e He. apply H. now right. }
  induction t1 as [|x t1 IH]; cbn [update_where app].
  - assert (same_pk d' d = true) as -> by now apply same_pk_iff.
    f_equal. apply Same. intros e He. apply N. now right.
  - rewrite (N x (or_introl (or_introl eq_refl))). f_equal. apply IH.
    + unfold pk_unique in *. cbn [app map] in U. now apply NoDup_cons_iff in U.
    + intros e [He | He]; apply N; [left; now right | now right].
Qed.

(** The read-first upsert inserts a stamped row for an unseen pair, writes
    nothing when the stored value already equals the new one, and otherwise
    (both ids non-zero) rewrites that one row with the new value and the
    call time as [updated_at], keeping [created_at]. *)
Theorem read_first_upsert_cases now t a b like :
  pk_unique t ->
  ((forall d, In d t -> pk d <> (a, b)) ->
   ReadFirst.CreateOrUpdateDecision now t a b like
   = (t ++ [mkDecision a b like now now], (None, None)))
  /\ (forall d, In d t -> pk d = (a, b) -> Liked d = like ->
        ReadFirst.CreateOrUpdateDecision now t a b like
        = (t, (Some like, None)))
  /\ (forall t1 d t2,
        t = t1 ++ d :: t2 -> pk d = (a, b) -> Liked d <> like ->
        a <> 0 -> b <> 0 ->
        ReadFirst.CreateOrUpdateDecision now t a b like
        = (t1 ++ mkDecision a b like (CreatedAt d) now :: t2,
           (Some (Liked d), None))).
Proof.
  intros U. split; [| split].
  - intros H. unfold ReadFirst.CreateOrUpdateDecision, First.
    rewrite find_absent.
    + unfold Create.
      assert (existsb (same_pk (stamped now a b like)) t = false) as ->;
        [| reflexivity].
      apply not_true_iff_false. intros C.
      apply existsb_exists in C as (e & He & Hs).
      apply same_pk_iff in Hs. apply (H e He). now rewrite <- Hs.
    + intros e He. apply not_true_iff_false. intros C.
      apply key_test_iff in C. now apply (H e He).
  - intros d Hin Hpk Hl. unfold ReadFirst.CreateOrUpdateDecision, First.
    rewrite (find_unique _ t d Hin).
    + rewrite Hl, Bool.eqb_reflx. reflexivity.
    + now apply key_test_iff.
    + intros e He Hpe. apply key_test_iff in Hpe.
      apply (pk_unique_In t); auto. congruence.
  - intros t1 d t2 -> Hpk Hl Ha Hb.
    assert (In d (t1 ++ d :: t2)) as Hin
        by (apply in_or_app; right; now left).
    unfold ReadFirst.CreateOrUpdateDecision, First.
    rewrite (find_unique _ _ d Hin).
    + assert (Bool.eqb (Liked d) like = false) as ->.
      { apply not_true_iff_false. intros C. apply Bool.eqb_prop in C.
        contradiction. }
      cbn [negb]. unfold Save. cbn [ActorID RecipientID Liked CreatedAt].
      assert (ActorID d = a /\ RecipientID d = b) as [-> ->]
          by (unfold pk in Hpk; now injection Hpk).
      destruct (Z.eqb_spec a 0); [contradiction |].
      destruct (Z.eqb_spec b 0); [contradiction |]. cbn [orb].
      assert (existsb (same_pk (mkDecision a b like (CreatedAt d) now))
                      (t1 ++ d :: t2) = true) as ->.
      { apply existsb_exists. exists d. split; [exact Hin |].
        apply same_pk_iff. now rewrite Hpk. }
      rewrite update_where_unique; auto.
    + now apply key_test_iff.
    + intros e He Hpe. apply key_test_iff in Hpe.
      apply (pk_unique_In _ _ _ U); auto. congruence.
Qed.

Lemma read_first_upsert_cases_witness :
  ReadFirst.CreateOrUpdateDecision 5000 mutual_table 7 99 true
  = (mutual_table ++ [mkDecision 7 99 true 5000 5000], (None, None))
  /\ ReadFirst.CreateOrUpdateDecision 5000 mutual_table 1 99 true
     = (mutual_table, (Some true, None))
  /\ ReadFirst.CreateOrUpdateDecision 5000 mutual_table 1 99 false
     = ([mkDecision 1 99 false 1000 5000;
         mkDecision 99 1 true 2000 2000;
         mkDecision 2 99 true 3000 3000], (Some true, None)).
Proof.
  assert (pk_unique mutual_table) as U
      by (unfold pk_unique; simpl; repeat constructor; simpl;
          intuition discriminate).
  split; [| split].
  - apply (proj1 (read_first_upsert_cases 5000 mutual_table 7 99 true U)).
    intros d Hin. simpl in Hin.
    repeat (destruct Hin as [<- | Hin]; [discriminate |]). destruct Hin.
  - apply (proj1 (proj2 (read_first_upsert_cases 5000 mutual_table 1 99 true U))
                 (mkDecision 1 99 true 1000 1000)); simpl; auto.
  - apply (proj2 (proj2 (read_first_upsert_cases 5000 mutual_table 1 99 false U))
                 [] (mkDecision 1 99 true 1000 1000)
                 [mkDecision 99 1 true 2000 2000; mkDecision 2 99 true 3000 3000]);
      try reflexivity; discriminate.
Defined.

End UpsertProps.


(** ** How a decision changes the count *)

Module CountProps.
Import Db Gorm Repository GormFacts RepositoryFacts ListQueries UpsertFacts.
Import Paging.

Lemma CountLikers_filter t R :
  CountLikers t R = len (filter (qualifies t R) t).
Proof.
  rewrite CountLikers_length. unfold len, sorted_likers.
  now rewrite sort_by_length.
Qed.

Lemma filter_CreateOnConflict (p : Decision -> bool) cols new t :
  keeps_pk cols ->
  (forall d, pk d = pk new -> p d = false) ->
  filter p (CreateOnConflict cols new t) = filter p t.
Proof.
  intros K H. induction t as [|r t IH]; cbn [CreateOnConflict filter].
  - now rewrite (H new eq_refl).
  - destruct (same_pk r new) eqn:E; cbn [filter].
    + apply same_pk_iff in E. rewrite (H r E).
      now rewrite (H (assign_all cols new r))
        by (now rewrite assign_all_pk).
    + now rewrite IH.
Qed.

Lemma existsb_CreateOnConflict (p : Decision -> bool) cols new t :
  keeps_pk cols ->
  (forall d, pk d = pk new -> p d = false) ->
  existsb p (CreateOnConflict cols new t) = existsb p t.
Proof.
  intros K H. induction t as [|r t IH]; cbn [CreateOnConflict existsb].
  - now rewrite (H new eq_refl).
  - destruct (same_pk r new) eqn:E; cbn [existsb].
    + apply same_pk_iff in E. rewrite (H r E).
      now rewrite (H (assign_all cols new r))
        by (now rewrite assign_all_pk).
    + now rewrite IH.
Qed.

(** A first like of [R] by [X] raises the count of [R] by one, unless [R]
    has passed [X]: then the count stays as it is. *)
Theorem first_like_counts now t X R :
  X <> R ->
  (forall d, In d t -> pk d <> (X, R)) ->
  CountLikers (fst (CreateOrUpdateDecision now t X R true)) R
  = CountLikers t R
    + (if existsb (fun d2 => (ActorID d2 =? R) && (RecipientID d2 =? X)
                             && negb (Liked d2)) t
       then 0 else 1).
Proof.
  intros Hne Hnew. rewrite CreateOrUpdateDecision_new by assumption.
  cbn [fst]. rewrite !CountLikers_filter. unfold len.
  set (new := mkDecision X R true now now).
  assert (forall d, not_passed_by (t ++ [new]) R d = not_passed_by t R d) as NP.
  { intros d. unfold not_passed_by. rewrite existsb_app. cbn [existsb new ActorID].
    destruct (Z.eqb_spec X R); [contradiction |]. cbn [andb].
    now rewrite !orb_false_r. }
  rewrite filter_app, length_app.
  rewrite (filter_ext (qualifies (t ++ [new]) R) (qualifies t R))
    by (intros d; unfold qualifies; now rewrite NP).
  cbn [filter]. unfold qualifies at 2. rewrite NP.
  unfold liked_into, not_passed_by. cbn [new RecipientID Liked ActorID].
  rewrite Z.eqb_refl. cbn [andb].
  destruct (existsb _ t); cbn [negb List.length]; lia.
Qed.

Lemma first_like_counts_witness :
  CountLikers (fst (CreateOrUpdateDecision 5000 mutual_table 7 99 true)) 99
  = CountLikers mutual_table 99
    + (if existsb (fun d2 => (ActorID d2 =? 99) && (RecipientID d2 =? 7)
                             && negb (Liked d2)) mutual_table
       then 0 else 1).
Proof.
  apply first_like_counts; [discriminate |].
  intros d Hin. simpl in Hin.
  repeat (destruct Hin as [<- | Hin]; [discriminate |]). destruct Hin.
Defined.

Lemma length_filter_split (p c : Decision -> bool) l :
  List.length (filter p l)
  = (List.length (filter (fun d => p d && c d) l)
     + List.length (filter (fun d => p d && negb (c d)) l))%nat.
Proof.
  induction l as [|x l IH]; cbn [filter List.length]; [reflexivity |].
  destruct (p x), (c x); cbn [andb negb List.length]; lia.
Qed.

Lemma length_filter_key t d :
  pk_unique t -> In d t ->
  List.length (filter (fun e => same_pk e d) t) = 1%nat.
Proof.
  unfold pk_unique. induction t as [|x t IH]; intros U Hin; [destruct Hin |].
  cbn [map] in U. apply NoDup_cons_iff in U as [Hx U]. cbn [filter].
  destruct Hin as [-> | Hin].
  - assert (same_pk d d = true) as -> by now apply same_pk_iff.
    cbn [List.length]. f_equal.
    assert (filter (fun e => same_pk e d) t = []) as ->; [| reflexivity].
    destruct (filter (fun e => same_pk e d) t) as [|e r] eqn:F; [reflexivity |].
    assert (In e (filter (fun e => same_pk e d) t)) as He
        by (rewrite F; now left).
    apply filter_In in He as [He Hs]. apply same_pk_iff in Hs.
    exfalso. apply Hx. rewrite <- Hs. now apply in_map.
  - assert (same_pk x d = false) as ->.
    { apply same_pk_false. intros C. apply Hx. rewrite C. now apply in_map. }
    now apply IH.
Qed.

(** When [R] passes a liker [X] that was counted, the count of [R] drops
    by exactly one. *)
Theorem pass_uncounts_liker now t X R dX :
  X <> R -> pk_unique t ->
  In dX t -> pk dX = (X, R) -> Liked dX = true ->
  ~ has_row t R X false ->
  CountLikers (fst (CreateOrUpdateDecision now t R X false)) R
  = CountLikers t R - 1.
Proof.
  intros Hne U Hin Hpk Hl Hnp.
  rewrite !CountLikers_filter. unfold len, CreateOrUpdateDecision. cbn [fst].
  set (new := stamped now R X false).
  set (t' := CreateOnConflict [liked] new t).
  assert (ActorID dX = X /\ RecipientID dX = R) as [HX HR]
      by (unfold pk in Hpk; now injection Hpk).
  (* rows into [R] are not the row written *)
  assert (forall d, pk d = pk new -> liked_into R d = false) as Off.
  { intros d E. unfold liked_into. unfold pk in E. cbn in E.
    injection E as _ E. rewrite E.
    destruct (Z.eqb_spec X R); [contradiction | reflexivity]. }
  assert (filter (qualifies t' R) t' = filter (qualifies t' R) t) as ->.
  { unfold t' at 2. apply filter_CreateOnConflict; [apply keeps_pk_liked |].
    intros d E. unfold qualifies. now rewrite (Off d E). }
  (* in the new table a row qualifies as before, unless its actor is [X] *)
  assert (forall d, In d t ->
                    qualifies t' R d
                    = qualifies t R d && negb (ActorID d =? X)) as Q.
  { intros d Hd. unfold qualifies.
    destruct (liked_into R d); cbn [andb]; [| reflexivity].
    destruct (Z.eqb_spec (ActorID d) X) as [E | E]; cbn [negb].
    - rewrite andb_false_r. apply not_true_iff_false.
      rewrite not_passed_by_iff. intros C. apply C. rewrite E.
      exact (UpsertProps.has_row_after_upsert now t R X false U).
    - rewrite andb_true_r. unfold not_passed_by. f_equal.
      apply existsb_CreateOnConflict; [apply keeps_pk_liked |].
      intros d2 E2. unfold pk in E2. cbn in E2. injection E2 as E1 E2.
      rewrite E2. destruct (Z.eqb_spec X (ActorID d)); [congruence |].
      now rewrite andb_false_r. }
  rewrite (filter_ext_in _ _ t Q).
  rewrite (length_filter_split (qualifies t R) (fun d => ActorID d =? X) t).
  assert (List.length (filter (fun d => qualifies t R d && (ActorID d =? X)) t)
          = 1%nat) as ->; [| lia].
  rewrite <- (length_filter_key t dX U Hin). f_equal.
  apply filter_ext_in. intros d Hd.
  destruct (same_pk d dX) eqn:E.
  - apply same_pk_iff in E.
    assert (d = dX) as -> by (apply (pk_unique_In t); auto).
    unfold qualifies, liked_into. rewrite HR, HX, Hl, !Z.eqb_refl.
    cbn [andb]. rewrite andb_true_r. apply not_passed_by_iff.
    now rewrite HX.
  - apply same_pk_false in E. apply not_true_iff_false. intros C.
    apply andb_true_iff in C as [C1 C2]. apply Z.eqb_eq in C2.
    unfold qualifies, liked_into in C1. zbool.
    apply E. unfold pk. congruence.
Qed.

Lemma pass_uncounts_liker_witness :
  CountLikers (fst (CreateOrUpdateDecision 5000 mutual_table 99 2 false)) 99
  = CountLikers mutual_table 99 - 1.
Proof.
  apply (pass_uncounts_liker 5000 mutual_table 2 99
           (mkDecision 2 99 true 3000 3000)).
  - discriminate.
  - unfold pk_unique; simpl; repeat constructor; simpl; intuition discriminate.
  - simpl. auto.
  - reflexivity.
  - reflexivity.
  - intros (d & Hin & A & B & C). simpl in Hin.
    repeat (destruct Hin as [<- | Hin]; [discriminate |]). destruct Hin.
Defined.

(** [CountLikers] counts actors, each once: under the primary key there is
    a duplicate-free list of actors of that length, holding exactly the
    actors that like [R] and that [R] has not passed. *)
Theorem CountLikers_counts_actors t R :
  pk_unique t ->
  exists actors,
    NoDup actors
    /\ CountLikers t R = Z.of_nat (List.length actors)
    /\ forall X, In X actors <->
                 (has_row t X R true /\ ~ has_row t R X false).
Proof.
  intros U. exists (map ActorID (sorted_likers t R)).
  split; [now apply sorted_likers_actors |].
  split; [rewrite CountLikers_length; unfold len; now rewrite length_map |].
  intros X. rewrite in_map_iff. split.
  - intros (d & E & Hd). pose proof (sorted_likers_recipient _ _ _ Hd) as HR.
    apply sorted_likers_In in Hd as [Hin Hq]. unfold qualifies in Hq.
    apply andb_true_iff in Hq as [Hq1 Hq2]. unfold liked_into in Hq1.
    apply andb_true_iff in Hq1 as [_ Hl]. subst X. split.
    + now exists d.
    + now apply not_passed_by_iff.
  - intros [(d & Hin & A & B & C) Hnp]. exists d. split; [exact A |].
    apply sorted_likers_In. split; [exact Hin |].
    unfold qualifies, liked_into. rewrite B, C, Z.eqb_refl. cbn [andb].
    apply not_passed_by_iff. now rewrite A.
Qed.

Lemma CountLikers_counts_actors_witness :
  exists actors,
    NoDup actors
    /\ CountLikers mutual_table 99 = Z.of_nat (List.length actors)
    /\ forall X, In X actors <->
                 (has_row mutual_table X 99 true
                  /\ ~ has_row mutual_table 99 X false).
Proof.
  apply CountLikers_counts_actors.
  unfold pk_unique; simpl; repeat constructor; simpl; intuition discriminate.
Defined.

End CountProps.


(** ** More on the list queries *)

Module QueryProps.
Import Db Gorm Repository GormFacts RepositoryFacts ListQueries UpsertFacts.
Import Paging.

(** [x] is listed no later than [y]. *)
Definition not_after (x y : Decision) : Prop :=
  UpdatedAt y < UpdatedAt x
  \/ (UpdatedAt x = UpdatedAt y /\ ActorID y <= ActorID x).

Lemma before_iff x y : updated_desc_actor_desc x y = true <-> not_after x y.
Proof.
  unfold updated_desc_actor_desc, not_after.
  rewrite orb_true_iff, andb_true_iff, Z.ltb_lt, Z.eqb_eq, Z.leb_le.
  reflexivity.
Qed.

Lemma StronglySorted_firstn (P : Decision -> Decision -> Prop) n l :
  StronglySorted P l -> StronglySorted P (firstn n l).
Proof.
  revert n. induction l as [|x l IH]; intros n H.
  - now rewrite firstn_nil.
  - destruct n; [constructor |]. cbn [firstn].
    apply StronglySorted_inv in H as [Hs Hx]. constructor; [now apply IH |].
    rewrite Forall_forall in *. intros y Hy. apply Hx.
    rewrite <- (firstn_skipn n l). apply in_or_app. now left.
Qed.

Lemma StronglySorted_take (P : Decision -> Decision -> Prop) k l :
  StronglySorted P l -> StronglySorted P (take k l).
Proof.
  intros H. unfold take. destruct (_ <=? _); [exact H |].
  now apply StronglySorted_firstn.
Qed.

Lemma StronglySorted_impl_local (P Q : Decision -> Decision -> Prop) l :
  (forall x y, P x y -> Q x y) -> StronglySorted P l -> StronglySorted Q l.
Proof.
  intros H. induction 1 as [|x l Hs IH Hx]; constructor; auto.
  eapply Forall_impl; [| exact Hx]. intros y. apply H.
Qed.

Lemma matching_sorted q :
  ordered q -> StronglySorted not_after (matching q).
Proof.
  unfold ordered, matching. intros ->. cbn [apply_order].
  apply (StronglySorted_impl_local
           (fun x y => updated_desc_actor_desc x y = true)).
  - intros x y H. now apply before_iff.
  - apply (sort_by_sorted _ before_total before_trans).
Qed.

Lemma page_of_sorted q c L rows next :
  ordered q -> page_of q c L = Ok (rows, next) ->
  StronglySorted not_after rows.
Proof.
  intros Ho. unfold page_of.
  assert (StronglySorted not_after (Find (apply_cursor c q))) as F.
  { unfold Find.
    assert (StronglySorted not_after (matching (apply_cursor c q))) as M
        by (apply matching_sorted; unfold ordered;
            now rewrite apply_cursor_order).
    destruct (q_limit (apply_cursor c q)) as [k|]; cbn [apply_limit]; auto.
    destruct (0 <=? k); auto. now apply StronglySorted_take. }
  destruct (L <? len (Find (apply_cursor c q))).
  - destruct (index _ _); [| discriminate]. intros H. injection H as <- _.
    now apply StronglySorted_take.
  - intros H. now injection H as <- _.
Qed.

Lemma page_of_after q c L rows next d :
  page_of q c L = Ok (rows, next) -> In d rows ->
  0 < Pagination.ActorID c -> 0 < Pagination.UpdatedUnix c ->
  after_cursor (time_UnixMilli (Pagination.UpdatedUnix c))
               (Pagination.ActorID c) d = true.
Proof.
  unfold page_of. intros H Hin Ha Hu.
  assert (In d (Find (apply_cursor c q))) as F.
  { destruct (L <? len (Find (apply_cursor c q))).
    - destruct (index _ _); [| discriminate].
      injection H as <- _. now apply take_incl in Hin.
    - now injection H as <- _. }
  apply Find_incl, matching_In in F. destruct F as [_ W].
  unfold apply_cursor in W.
  destruct (Z.ltb_spec 0 (Pagination.ActorID c)); [| lia].
  destruct (Z.ltb_spec 0 (Pagination.UpdatedUnix c)); [| lia].
  cbn [andb q_where Where] in W. rewrite holds_all_snoc in W.
  now apply andb_true_iff in W.
Qed.

(** Every page of either query is in the order of the query, and a page
    fetched with a cursor whose two fields are positive holds only rows
    strictly after that position. *)
Theorem page_in_order_after_cursor t R tok c L rows next :
  Pagination.Decode (getString tok) = Ok c ->
  GetLikers t R tok L = Ok (rows, next)
  \/ GetNewLikers t R tok L = Ok (rows, next) ->
  StronglySorted not_after rows
  /\ (0 < Pagination.ActorID c -> 0 < Pagination.UpdatedUnix c ->
      forall d, In d rows ->
        UpdatedAt d < Pagination.UpdatedUnix c
        \/ (UpdatedAt d = Pagination.UpdatedUnix c
            /\ ActorID d < Pagination.ActorID c)).
Proof.
  intros Hd H.
  rewrite (GetLikers_page _ _ _ _ _ Hd), (GetNewLikers_page _ _ _ _ _ Hd) in H.
  split.
  - destruct H as [H | H]; eapply page_of_sorted; try exact H; reflexivity.
  - intros Ha Hu d Hin.
    assert (after_cursor (time_UnixMilli (Pagination.UpdatedUnix c))
                         (Pagination.ActorID c) d = true) as A
        by (destruct H as [H | H]; eapply page_of_after; eauto).
    unfold after_cursor, time_UnixMilli in A.
    apply orb_true_iff in A as [A | A]; zbool; [left | right]; lia.
Qed.

Lemma page_in_order_after_cursor_witness :
  StronglySorted not_after [mkDecision 1 99 true 1000 1000]
  /\ (0 < 2 -> 0 < 3000 ->
      forall d, In d [mkDecision 1 99 true 1000 1000] ->
        UpdatedAt d < 3000 \/ (UpdatedAt d = 3000 /\ ActorID d < 2)).
Proof.
  apply (page_in_order_after_cursor mutual_table 99
           (Some (lit "eyJhY3Rvcl9pZCI6MiwidXBkYXRlZF91bml4IjozMDAwfQ=="))
           (Pagination.mkCursor 2 3000) 1 _ None).
  - vm_compute. reflexivity.
  - left. vm_compute. reflexivity.
Defined.

(** The rows [GetNewLikers] selects are the rows [GetLikers] selects, in
    the same order, without those the recipient has liked back. *)
Theorem new_likers_select_from_likers t R c L :
  matching (apply_cursor c (new_likers_query t R L))
  = filter (not_liked_back t)
           (matching (apply_cursor c (likers_query t R L))).
Proof.
  assert (matching (new_likers_query t R L)
          = filter (not_liked_back t) (matching (likers_query t R L))) as Base.
  { unfold matching, new_likers_query, likers_query.
    cbn [q_order q_where q_rows Limit Order Where From apply_order app].
    rewrite (filter_sort_by _ before_total before_trans). f_equal.
    rewrite <- filter_andb. apply filter_ext. intros d. cbn.
    rewrite !andb_true_r.
    destruct (liked_into R d), (not_liked_back t d), (not_passed_by t R d);
      reflexivity. }
  unfold apply_cursor. destruct (_ && _); [| exact Base].
  rewrite !matching_Where by reflexivity. rewrite Base.
  rewrite <- !filter_andb. apply filter_ext. intros d. apply andb_comm.
Qed.

(** A one-way like appears: a liker that [R] has neither passed nor liked
    back is on the page of [GetNewLikers] when the page covers the table. *)
Theorem GetNewLikers_complete t R L d :
  In d t -> RecipientID d = R -> Liked d = true ->
  ~ has_row t R (ActorID d) false ->
  ~ has_row t R (ActorID d) true ->
  len t <= L -> 0 < L <= Int.max_int64 ->
  exists rows, GetNewLikers t R None L = Ok (rows, None) /\ In d rows.
Proof.
  intros Hin HR Hl Hp Hb Hlen HL.
  exists (matching (new_likers_query t R L)). split.
  - rewrite (GetNewLikers_page t R None L Pagination.zero) by reflexivity.
    assert (fits (List.length t)) as Ft by (unfold fits, len in *; lia).
    pose proof (page_of_last (new_likers_query t R L) Pagination.zero L
                  eq_refl HL (fits_matching _ (new_likers_query t R L) Ft)) as P.
    rewrite apply_cursor_zero in P. apply P.
    pose proof (matching_length_le (new_likers_query t R L)) as M.
    cbn [q_rows new_likers_query Limit Order Where From] in M.
    unfold len in *. lia.
  - apply matching_In. split; [exact Hin |].
    cbn. unfold liked_into. rewrite HR, Z.eqb_refl, Hl.
    apply not_passed_by_iff in Hp. rewrite Hp.
    assert (not_liked_back t d = true) as ->; [| reflexivity].
    apply not_liked_back_iff. now rewrite HR.
Qed.

Lemma GetNewLikers_complete_witness :
  exists rows,
    GetNewLikers mutual_table 99 None 5 = Ok (rows, None)
    /\ In (mkDecision 2 99 true 3000 3000) rows.
Proof.
  apply GetNewLikers_complete.
  - simpl. auto.
  - reflexivity.
  - reflexivity.
  - intros (d & Hin & A & B & C). simpl in Hin.
    repeat (destruct Hin as [<- | Hin]; [discriminate |]). destruct Hin.
  - intros (d & Hin & A & B & C). simpl in Hin.
    repeat (destruct Hin as [<- | Hin]; [discriminate |]). destruct Hin.
  - vm_compute. discriminate.
  - unfold Int.max_int64. lia.
Defined.

(** A next-page token the repository hands out is one [Decode] accepts,
    and it decodes to the actor and the update time of the last row of the
    page. *)
Theorem next_token_decodes t R tok c L rows tk :
  Pagination.Decode (getString tok) = Ok c ->
  0 < L <= Int.max_int64 ->
  fits (List.length t) ->
  (forall d, In d t -> Int.is_uint64 (ActorID d) /\ Int.is_int64 (UpdatedAt d)) ->
  GetLikers t R tok L = Ok (rows, Some tk)
  \/ GetNewLikers t R tok L = Ok (rows, Some tk) ->
  exists init last,
    rows = init ++ [last]
    /\ Pagination.Decode tk
       = Ok (Pagination.mkCursor (ActorID last) (UpdatedAt last)).
Proof.
  intros Hd HL Hfit Hrange H.
  rewrite (GetLikers_page _ _ _ _ _ Hd), (GetNewLikers_page _ _ _ _ _ Hd) in H.
  assert (exists q, q_limit q = Some (Int.add L 1) /\ q_rows q = t
                    /\ page_of q c L = Ok (rows, Some tk)) as (q & Hlim & Hrows & P).
  { destruct H as [H | H]; eexists; (split; [| split; [| exact H]]);
      reflexivity. }
  pose proof (page_of_contract q c L Hlim HL) as C.
  rewrite Hrows in C. destruct (C Hfit) as (_ & rows' & next' & E & _ & _ & _ & _ & T).
  rewrite P in E. injection E as <- <-.
  destruct (T tk eq_refl) as (init & last & Er & Ee).
  exists init, last. split; [exact Er |].
  assert (tk = Base64.EncodeToString
                 (Pagination.json_Marshal
                    (Pagination.mkCursor (ActorID last) (UpdatedAt last))))
    as -> by (unfold Pagination.Encode, UnixMilli in Ee; congruence).
  apply PaginationFacts.Decode_Encode_token.
  assert (In last t) as Hin.
  { assert (In last rows) as Hl
        by (rewrite Er; apply in_or_app; right; now left).
    destruct (page_of_incl _ _ _ _ _ _ P Hl) as [Hq _]. now rewrite Hrows in Hq. }
  destruct (Hrange last Hin). split; assumption.
Qed.

Lemma next_token_decodes_witness :
  exists init last,
    [mkDecision 2 99 true 3000 3000] = init ++ [last]
    /\ Pagination.Decode
         (lit "eyJhY3Rvcl9pZCI6MiwidXBkYXRlZF91bml4IjozMDAwfQ==")
       = Ok (Pagination.mkCursor (ActorID last) (UpdatedAt last)).
Proof.
  apply (next_token_decodes mutual_table 99 None Pagination.zero 1).
  - reflexivity.
  - unfold Int.max_int64. lia.
  - unfold fits, Int.max_int64. simpl. lia.
  - intros d Hin. simpl in Hin.
    unfold Int.is_uint64, Int.is_int64, Int.max_uint64, Int.min_int64,
      Int.max_int64.
    repeat (destruct Hin as [<- | Hin]; [simpl; lia |]). destruct Hin.
  - left. vm_compute. reflexivity.
Defined.

End QueryProps.


(** ** The counters *)

Module CacheProps.
Import Service RedisCache StrconvFacts.

Lemma bytes_eqb_refl k : bytes_eqb k k = true.
Proof.
  unfold bytes_eqb. destruct (list_eq_dec Byte.byte_eq_dec k k); congruence.
Qed.

Lemma bytes_eqb_neq k k' : k <> k' -> bytes_eqb k k' = false.
Proof.
  unfold bytes_eqb. destruct (list_eq_dec Byte.byte_eq_dec k k'); congruence.
Qed.

Lemma bytes_eqb_eq k k' : bytes_eqb k k' = true -> k = k'.
Proof.
  unfold bytes_eqb. destruct (list_eq_dec Byte.byte_eq_dec k k'); congruence.
Qed.

Lemma cache_get_put_same c k v : cache_get (cache_put c k v) k = Some v.
Proof.
  induction c as [|[k0 v0] c IH]; cbn [cache_put cache_get].
  - now rewrite bytes_eqb_refl.
  - destruct (bytes_eqb k0 k) eqn:E; cbn [cache_get]; rewrite E; auto.
Qed.

Lemma cache_get_put_other c k v k' :
  k <> k' -> cache_get (cache_put c k v) k' = cache_get c k'.
Proof.
  intros N. induction c as [|[k0 v0] c IH]; cbn [cache_put cache_get].
  - now rewrite bytes_eqb_neq.
  - destruct (bytes_eqb k0 k) eqn:E; cbn [cache_get].
    + apply bytes_eqb_eq in E. subst k0. now rewrite bytes_eqb_neq.
    + now rewrite IH.
Qed.

Lemma cache_get_Del_same c k : cache_get (Del c k) k = None.
Proof.
  unfold Del. induction c as [|[k0 v0] c IH]; cbn [filter fst cache_get].
  - reflexivity.
  - destruct (bytes_eqb k0 k) eqn:E; cbn [negb cache_get]; [exact IH |].
    now rewrite E.
Qed.

Lemma cache_get_Del_other c k k' :
  k <> k' -> cache_get (Del c k) k' = cache_get c k'.
Proof.
  intros N. unfold Del.
  induction c as [|[k0 v0] c IH]; cbn [filter fst cache_get].
  - reflexivity.
  - destruct (bytes_eqb k0 k) eqn:E; cbn [negb cache_get].
    + apply bytes_eqb_eq in E. subst k0. now rewrite bytes_eqb_neq.
    + now rewrite IH.
Qed.

Lemma FormatUint_inj a b :
  Int.is_uint64 a -> Int.is_uint64 b ->
  Strconv.FormatUint a = Strconv.FormatUint b -> a = b.
Proof.
  intros Ha Hb E.
  pose proof (ParseUint_FormatUint a Ha) as Pa.
  pose proof (ParseUint_FormatUint b Hb) as Pb.
  rewrite E in Pa. congruence.
Qed.

(** Two users never share a counter key. *)
Theorem KeyForLikeCount_injective a b :
  Int.is_uint64 a -> Int.is_uint64 b ->
  KeyForLikeCount a = KeyForLikeCount b -> a = b.
Proof.
  intros Ha Hb E. unfold KeyForLikeCount in E.
  apply app_inv_head in E. now apply FormatUint_inj.
Qed.

Lemma KeyForLikeCount_injective_witness :
  Int.is_uint64 12 /\ KeyForLikeCount 12 = lit "likes:count:12" /\ 12 = 12.
Proof.
  assert (Int.is_uint64 12) as H
      by (unfold Int.is_uint64, Int.max_uint64; lia).
  split; [exact H |]. split; [reflexivity |].
  exact (KeyForLikeCount_injective 12 12 H H eq_refl).
Defined.

(** A count written with [UpdateLikeCount] is read back by [GetLikeCount]
    for the same user and leaves every other user's count alone; a user
    without a counter, or whose counter was deleted, reads as 0 without
    error. *)
Theorem like_count_round_trip c u n :
  Int.is_uint64 u -> Int.is_int64 n ->
  GetLikeCount (UpdateLikeCount c u n) u = (n, None)
  /\ (forall u', Int.is_uint64 u' -> u' <> u ->
        GetLikeCount (UpdateLikeCount c u n) u' = GetLikeCount c u')
  /\ GetLikeCount (Del c (KeyForLikeCount u)) u = (0, None)
  /\ GetLikeCount [] u = (0, None).
Proof.
  intros Hu Hn. unfold GetLikeCount, UpdateLikeCount, Set_, Get.
  change (lit "likes:count:" ++ Strconv.FormatUint ?x) with (KeyForLikeCount x).
  split; [| split; [| split]].
  - rewrite cache_get_put_same. now rewrite ParseInt_FormatInt.
  - intros u' Hu' Hne. rewrite cache_get_put_other; [reflexivity |].
    intros E. apply Hne. symmetry. now apply KeyForLikeCount_injective.
  - now rewrite cache_get_Del_same.
  - reflexivity.
Qed.

Lemma like_count_round_trip_witness :
  GetLikeCount (UpdateLikeCount [] 42 123) 42 = (123, None).
Proof.
  apply (like_count_round_trip [] 42 123).
  - unfold Int.is_uint64, Int.max_uint64. lia.
  - unfold Int.is_int64, Int.min_int64, Int.max_int64. lia.
Defined.

(** Two different cursors never get the same token. *)
Theorem Encode_injective c1 c2 tok :
  PaginationFacts.wf_cursor c1 -> PaginationFacts.wf_cursor c2 ->
  Pagination.Encode c1 = Ok tok -> Pagination.Encode c2 = Ok tok -> c1 = c2.
Proof.
  intros W1 W2 E1 E2. unfold Pagination.Encode in *.
  pose proof (PaginationFacts.Decode_Encode_token c1 W1) as D1.
  pose proof (PaginationFacts.Decode_Encode_token c2 W2) as D2.
  assert (Base64.EncodeToString (Pagination.json_Marshal c1)
          = Base64.EncodeToString (Pagination.json_Marshal c2)) as E
      by congruence.
  rewrite E in D1. congruence.
Qed.

Lemma Encode_injective_witness :
  Pagination.mkCursor 9 3000 = Pagination.mkCursor 9 3000.
Proof.
  assert (PaginationFacts.wf_cursor (Pagination.mkCursor 9 3000)) as W.
  { unfold PaginationFacts.wf_cursor, Int.is_uint64, Int.is_int64; simpl.
    unfold Int.max_uint64, Int.min_int64, Int.max_int64. lia. }
  exact (Encode_injective _ _ _ W W eq_refl eq_refl).
Defined.

End CacheProps.


(** ** The service, call by call *)

Module ServiceProps.
Import Db Gorm Repository GormFacts RepositoryFacts ListQueries UpsertFacts.
Import Service StrconvFacts CacheProps.

Lemma parse_digits_nonneg s : forall acc v,
  0 <= acc -> Strconv.parse_digits s acc = Some v -> 0 <= v.
Proof.
  induction s as [|b s IH]; intros acc v Ha H; cbn [Strconv.parse_digits] in H.
  - injection H as <-. exact Ha.
  - unfold Strconv.digit_val in H.
    destruct ((48 <=? byte_to_Z b) && (byte_to_Z b <=? 57)) eqn:E;
      [| discriminate].
    apply andb_true_iff in E as [E1 E2]. apply Z.leb_le in E1, E2.
    assert (0 <= 10 * acc + (byte_to_Z b - 48)) as A by lia.
    exact (IH _ _ A H).
Qed.

Lemma ParseUint_range s v : Strconv.ParseUint s = Some v -> Int.is_uint64 v.
Proof.
  unfold Strconv.ParseUint, Int.is_uint64. destruct s as [|b s]; [discriminate |].
  destruct (Strconv.parse_digits (b :: s) 0) as [x|] eqn:E; [| discriminate].
  destruct (Z.leb_spec x Int.max_uint64) as [Hle | Hgt]; [| discriminate].
  intros Hv. injection Hv as <-. split; [| exact Hle].
  exact (parse_digits_nonneg _ _ _ (Z.le_refl 0) E).
Qed.

(** What a well-formed [PutDecision] does, in one equation. *)
Lemma PutDecision_outcome now req w a b :
  Strconv.ParseUint (ActorUserId req) = Some a ->
  Strconv.ParseUint (RecipientUserId req) = Some b ->
  a <> b ->
  let like := LikedRecipient req in
  let t' := fst (CreateOrUpdateDecision now (w_db w) a b like) in
  let key := KeyForLikeCount b in
  let old := match cache_get (w_cache w) key with Some n => n | None => 0 end in
  PutDecision now req w
  = (Ok (mkPutDecisionResponse (if like then HasLiked t' b a else false)),
     mkWorld t'
       (cache_put (w_cache w) key (old + (if like then 1 else -1)))
       (w_log w
          ++ [CallCreateOrUpdateDecision a b like;
              (if like then CacheIncr key else CacheDecr key);
              CacheExpire key]
          ++ (if like then [CallHasLiked b a] else []))).
Proof.
  intros Pa Pb Hab. unfold PutDecision. rewrite Pa, Pb.
  destruct (Z.eqb_spec a b) as [| _]; [contradiction |].
  destruct w as [t cache log]. destruct (LikedRecipient req);
    cbn; rewrite <- !app_assoc; reflexivity.
Qed.

(** Every accepted decision moves the recipient's cached counter by one,
    up for a like and down for a pass, whatever the table held before; no
    other user's counter changes. *)
Theorem counter_moves_on_every_decision now req w a b :
  Strconv.ParseUint (ActorUserId req) = Some a ->
  Strconv.ParseUint (RecipientUserId req) = Some b ->
  a <> b ->
  let w' := snd (PutDecision now req w) in
  cache_get (w_cache w') (KeyForLikeCount b)
  = Some (match cache_get (w_cache w) (KeyForLikeCount b) with
          | Some n => n
          | None => 0
          end + (if LikedRecipient req then 1 else -1))
  /\ (forall u, Int.is_uint64 u -> u <> b ->
        cache_get (w_cache w') (KeyForLikeCount u)
        = cache_get (w_cache w) (KeyForLikeCount u)).
Proof.
  intros Pa Pb Hab w'. subst w'.
  rewrite (PutDecision_outcome now req w a b Pa Pb Hab). cbn [snd w_cache].
  split; [apply cache_get_put_same |].
  intros u Hu Hne. apply cache_get_put_other. intros E. apply Hne.
  symmetry. apply KeyForLikeCount_injective; auto.
  now apply (ParseUint_range (RecipientUserId req)).
Qed.

Lemma counter_moves_on_every_decision_witness :
  cache_get
    (w_cache (snd (PutDecision 7000
                     (mkPutDecisionRequest (lit "2") (lit "1") false)
                     (mkWorld [] [] []))))
    (KeyForLikeCount 1)
  = Some (-1).
Proof.
  exact (proj1 (counter_moves_on_every_decision
                  7000 (mkPutDecisionRequest (lit "2") (lit "1") false)
                  (mkWorld [] [] []) 2 1 eq_refl eq_refl ltac:(discriminate))).
Defined.

(** A like that is answered is a match: when [b] has not liked [a] yet, a
    like of [b] by [a] reports no mutual like, and the like of [a] by [b]
    that follows reports one. *)
Theorem like_back_is_mutual now1 now2 w sa sb a b :
  Strconv.ParseUint sa = Some a ->
  Strconv.ParseUint sb = Some b ->
  a <> b ->
  pk_unique (w_db w) ->
  ~ has_row (w_db w) b a true ->
  let first := PutDecision now1 (mkPutDecisionRequest sa sb true) w in
  fst first = Ok (mkPutDecisionResponse false)
  /\ fst (PutDecision now2 (mkPutDecisionRequest sb sa true) (snd first))
     = Ok (mkPutDecisionResponse true).
Proof.
  intros Pa Pb Hab U Hno first. subst first.
  rewrite (PutDecision_outcome now1 (mkPutDecisionRequest sa sb true)
             w a b Pa Pb Hab).
  cbn [fst snd LikedRecipient]. split.
  - do 2 f_equal. apply not_true_iff_false. rewrite HasLiked_iff.
    rewrite (has_row_upsert now1 (w_db w) a b true b a true) by congruence.
    exact Hno.
  - rewrite (PutDecision_outcome now2 (mkPutDecisionRequest sb sa true)
               _ b a Pb Pa (not_eq_sym Hab)).
    cbn [fst LikedRecipient w_db]. do 2 f_equal. apply HasLiked_iff.
    apply (has_row_upsert now2 _ b a true a b true); [congruence |].
    now apply UpsertProps.has_row_after_upsert.
Qed.

Lemma like_back_is_mutual_witness :
  fst (PutDecision 1000 (mkPutDecisionRequest (lit "1") (lit "2") true)
                   (mkWorld [] [] []))
  = Ok (mkPutDecisionResponse false)
  /\ fst (PutDecision 2000 (mkPutDecisionRequest (lit "2") (lit "1") true)
            (snd (PutDecision 1000
                    (mkPutDecisionRequest (lit "1") (lit "2") true)
                    (mkWorld [] [] []))))
     = Ok (mkPutDecisionResponse true).
Proof.
  apply (like_back_is_mutual 1000 2000 (mkWorld [] [] []) (lit "1") (lit "2") 1 2).
  - reflexivity.
  - reflexivity.
  - discriminate.
  - constructor.
  - intros (d & [] & _).
Defined.

End ServiceProps.


(** ** The list endpoints and the cached count *)

Module EndpointProps.
Import Db Gorm Repository GormFacts RepositoryFacts ListQueries UpsertFacts.
Import Service ServiceCount StrconvFacts CacheProps ServiceProps.

Lemma Decode_error tok e :
  Pagination.Decode tok = Err e -> e = Pagination.errInvalidToken.
Proof.
  unfold Pagination.Decode. destruct tok; [discriminate |].
  destruct (Base64.DecodeString _) as [b0|]; [| congruence].
  destruct (Pagination.json_Unmarshal b0); [discriminate | congruence].
Qed.

(** A token that does not decode is answered with the gRPC code Internal
    and the message of [Decode], by both list endpoints, and nothing is
    changed; only a recipient id that does not parse gives InvalidArgument. *)
Theorem list_errors req w :
  (forall rid e,
      Strconv.ParseUint (ll_RecipientUserId req) = Some rid ->
      Pagination.Decode (getString (PaginationToken req)) = Err e ->
      fst (ListLikedYou req w)
      = Err (StatusError Codes.Internal "invalid pagination token")
      /\ fst (ListNewLikedYou req w)
         = Err (StatusError Codes.Internal "invalid pagination token")
      /\ w_db (snd (ListLikedYou req w)) = w_db w
      /\ w_db (snd (ListNewLikedYou req w)) = w_db w)
  /\ (Strconv.ParseUint (ll_RecipientUserId req) = None ->
      ListLikedYou req w
      = (Err (StatusError Codes.InvalidArgument
                "recipient_user_id must be a valid uint64"), w)
      /\ ListNewLikedYou req w
         = (Err (StatusError Codes.InvalidArgument
                   "recipient_user_id must be a valid uint64"), w)).
Proof.
  split.
  - intros rid e P D. pose proof (Decode_error _ _ D) as ->.
    unfold ListLikedYou, ListNewLikedYou. rewrite P.
    destruct w as [t cache log]. cbn.
    unfold GetLikers, GetNewLikers. rewrite D. cbn. auto.
  - intros P. unfold ListLikedYou, ListNewLikedYou. now rewrite P.
Qed.

Lemma list_errors_witness :
  fst (ListLikedYou (mkListLikedYouRequest (lit "99") (Some (lit "not a token")))
                    (mkWorld mutual_table [] []))
  = Err (StatusError Codes.Internal "invalid pagination token").
Proof.
  refine (proj1 (proj1 (list_errors
                          (mkListLikedYouRequest (lit "99")
                                                 (Some (lit "not a token")))
                          (mkWorld mutual_table [] []))
                       99 Pagination.errInvalidToken eq_refl _)).
  vm_compute. reflexivity.
Defined.

Lemma list_response_likers r resp :
  list_response r = Ok resp ->
  exists rows next, r = Ok (rows, next) /\ Likers resp = map liker_of rows.
Proof.
  unfold list_response. destruct r as [[rows next] | e |]; try discriminate.
  intros H. injection H as <-. now exists rows, next.
Qed.

(** Every entry [ListLikedYou] returns names an actor with a like into the
    recipient that the recipient has not passed, and [ListNewLikedYou] only
    actors the recipient has not liked back either; the entry's id text
    parses back to that actor.  Both return at most five entries and leave
    the table and the counters as they were. *)
Theorem listed_likers_are_genuine req w rid :
  Strconv.ParseUint (ll_RecipientUserId req) = Some rid ->
  (forall d, In d (w_db w) -> Int.is_uint64 (ActorID d)) ->
  fits (List.length (w_db w)) ->
  (forall resp, fst (ListLikedYou req w) = Ok resp ->
     (List.length (Likers resp) <= 5)%nat
     /\ forall l, In l (Likers resp) ->
          exists X, Strconv.ParseUint (ActorId l) = Some X
                    /\ has_row (w_db w) X rid true
                    /\ ~ has_row (w_db w) rid X false)
  /\ (forall resp, fst (ListNewLikedYou req w) = Ok resp ->
        (List.length (Likers resp) <= 5)%nat
        /\ forall l, In l (Likers resp) ->
             exists X, Strconv.ParseUint (ActorId l) = Some X
                       /\ has_row (w_db w) X rid true
                       /\ ~ has_row (w_db w) rid X false
                       /\ ~ has_row (w_db w) rid X true)
  /\ w_db (snd (ListLikedYou req w)) = w_db w
  /\ w_cache (snd (ListLikedYou req w)) = w_cache w
  /\ w_db (snd (ListNewLikedYou req w)) = w_db w
  /\ w_cache (snd (ListNewLikedYou req w)) = w_cache w.
Proof.
  intros P Hrange Hfit. unfold ListLikedYou, ListNewLikedYou. rewrite P.
  destruct w as [t cache log]. cbn [w_db] in *. cbn.
  assert (0 < 5 <= Int.max_int64) as H5 by (unfold Int.max_int64; lia).
  split; [| split; [| auto]].
  - intros resp H. apply list_response_likers in H as (rows & next & E & ->).
    rewrite length_map. split.
    + unfold GetLikers in E.
      destruct (Pagination.Decode _) as [c| |]; try discriminate.
      destruct (page_of_contract (likers_query t rid 5) c 5 eq_refl H5 Hfit)
        as (_ & rows' & next' & E' & _ & Hlen & _).
      rewrite E in E'. injection E' as <- <-. unfold len in Hlen. lia.
    + intros l Hl. apply in_map_iff in Hl as (d & <- & Hd).
      destruct (GetLikers_sound _ _ _ _ _ _ _ E Hd) as (A & B & C & D).
      exists (ActorID d). cbn [ActorId liker_of].
      split; [apply ParseUint_FormatUint; now apply Hrange |].
      split; [now exists d | exact D].
  - intros resp H. apply list_response_likers in H as (rows & next & E & ->).
    rewrite length_map. split.
    + unfold GetNewLikers in E.
      destruct (Pagination.Decode _) as [c| |]; try discriminate.
      destruct (page_of_contract (new_likers_query t rid 5) c 5 eq_refl H5 Hfit)
        as (_ & rows' & next' & E' & _ & Hlen & _).
      rewrite E in E'. injection E' as <- <-. unfold len in Hlen. lia.
    + intros l Hl. apply in_map_iff in Hl as (d & <- & Hd).
      destruct (GetNewLikers_sound _ _ _ _ _ _ _ E Hd) as (A & B & C & D & F).
      exists (ActorID d). cbn [ActorId liker_of].
      split; [apply ParseUint_FormatUint; now apply Hrange |].
      split; [now exists d | split; assumption].
Qed.

Lemma listed_likers_are_genuine_witness :
  forall resp,
    fst (ListLikedYou (mkListLikedYouRequest (lit "99") None)
                      (mkWorld mutual_table [] [])) = Ok resp ->
    (List.length (Likers resp) <= 5)%nat.
Proof.
  intros resp H.
  refine (proj1 (proj1 (listed_likers_are_genuine
                          (mkListLikedYouRequest (lit "99") None)
                          (mkWorld mutual_table [] []) 99 eq_refl _ _)
                       resp H)).
  - intros d Hin. simpl in Hin. unfold Int.is_uint64, Int.max_uint64.
    repeat (destruct Hin as [<- | Hin]; [simpl; lia |]). destruct Hin.
  - unfold fits, Int.max_int64. simpl. lia.
Defined.

End EndpointProps.
